(** * ZigX build backend: a shallow embedding of [src/zigx/build.py]

    The development follows the layout of the Python module: host tags,
    the Zig-to-ctypes type mapper, the export scanner (a backtracking
    regular-expression matcher and the pattern of [parse_zig_exports]),
    the binding generator, the compiler driver and the wheel assembler.
    Definitions come first, the theorems about them follow.

    Text is a list of characters.  A character is a code point below 256;
    the classification of characters ([is_space], [is_word]) is the one
    Python applies to [str] values on that range. *)

From Stdlib Require Import List Ascii String Bool Arith Lia ZArith DecimalString.
From Stdlib Require Import Permutation.
Import ListNotations.

Set Implicit Arguments.

#[local] Abbreviation length := Datatypes.length.
#[local] Abbreviation concat := List.concat.

(* ================================================================== *)
(** * Part I: the embedding                                            *)
(* ================================================================== *)

(** ** Text *)

Definition str := list ascii.

(** [L "abc"] is the text [abc]. *)
Definition L (s : string) : str := list_ascii_of_string s.

(** The double quote, and text written with an apostrophe wherever the
    generated text has a double quote. *)
Definition dq : ascii := "034"%char.
Definition nl : ascii := "010"%char.
Definition Q (s : string) : str :=
  map (fun c => if Ascii.eqb c "'"%char then dq else c) (L s).

Fixpoint str_eqb (a b : str) : bool :=
  match a, b with
  | [], [] => true
  | x :: a', y :: b' => Ascii.eqb x y && str_eqb a' b'
  | _, _ => false
  end.

(** [str.isspace] on one character: TAB..CR, FS..US, space, NEL, NBSP. *)
Definition is_space (c : ascii) : bool :=
  let n := nat_of_ascii c in
  ((9 <=? n) && (n <=? 13)) || ((28 <=? n) && (n <=? 32))
  || (n =? 133) || (n =? 160).

(** The word characters of [\w]: alphanumerics and the underscore. *)
Definition is_word (c : ascii) : bool :=
  let n := nat_of_ascii c in
  ((48 <=? n) && (n <=? 57)) || ((65 <=? n) && (n <=? 90))
  || ((97 <=? n) && (n <=? 122)) || (n =? 95)
  || (n =? 170) || (n =? 178) || (n =? 179) || (n =? 181) || (n =? 185)
  || (n =? 186) || ((188 <=? n) && (n <=? 190))
  || ((192 <=? n) && (n <=? 214)) || ((216 <=? n) && (n <=? 246))
  || ((248 <=? n) && (n <=? 255)).

(** [s.lstrip(chars)] for a set of characters given as a predicate. *)
Fixpoint lstrip_by (p : ascii -> bool) (s : str) : str :=
  match s with
  | c :: t => if p c then lstrip_by p t else s
  | [] => []
  end.

Definition rstrip_by (p : ascii -> bool) (s : str) : str :=
  rev (lstrip_by p (rev s)).

Definition lstrip : str -> str := lstrip_by is_space.
Definition rstrip : str -> str := rstrip_by is_space.
Definition strip (s : str) : str := rstrip (lstrip s).

(** [s.startswith(p)] *)
Fixpoint startswith (s p : str) {struct p} : bool :=
  match p, s with
  | [], _ => true
  | x :: p', c :: s' => Ascii.eqb c x && startswith s' p'
  | _ :: _, [] => false
  end.

(** [s.split(sep)] for a one-character separator: never the empty list. *)
Fixpoint split (sep : ascii) (s : str) : list str :=
  match s with
  | [] => [[]]
  | c :: t =>
      if Ascii.eqb c sep then [] :: split sep t
      else match split sep t with
           | h :: r => (c :: h) :: r
           | [] => [[c]]
           end
  end.

(** [sep in s] for a one-character [sep]. *)
Definition contains (sep : ascii) (s : str) : bool :=
  existsb (Ascii.eqb sep) s.

(** [s.split(sep, 1)] when [sep in s]: the text before the first
    separator and the text after it. *)
Fixpoint split1 (sep : ascii) (s : str) : str * str :=
  match s with
  | [] => ([], [])
  | c :: t =>
      if Ascii.eqb c sep then ([], t)
      else let '(a, b) := split1 sep t in (c :: a, b)
  end.

(** [sep.join(parts)] *)
Fixpoint join (sep : str) (parts : list str) : str :=
  match parts with
  | [] => []
  | [p] => p
  | p :: rest => p ++ sep ++ join sep rest
  end.

(** [s.replace(a, b)] for one-character [a] and [b]. *)
Definition replace (a b : ascii) (s : str) : str :=
  map (fun c => if Ascii.eqb c a then b else c) s.

(** Decimal rendering of a natural number, as [str(n)] and f-strings do. *)
Definition str_of_nat (n : nat) : str :=
  L (NilEmpty.string_of_uint (Nat.to_uint n)).

(** ** Exceptions *)

Inductive exn : Type :=
| KeyError (key : str)
| FileNotFoundError (msg : str)
| FileExistsError (filename : str)
| CalledProcessError (returncode : Z) (cmd : list str) (output stderr : str)
| UnicodeDecodeError (msg : str)
| OSError (msg : str).

Inductive result (A : Type) : Type :=
| Ok (a : A)
| Raise (e : exn).
Arguments Ok {A} a.
Arguments Raise {A} e.

Definition bind {A B} (m : result A) (f : A -> result B) : result B :=
  match m with
  | Ok a => f a
  | Raise e => Raise e
  end.

Notation "x <- m ;; k" := (bind m (fun x => k))
  (at level 61, m at next level, right associativity).

(** [[f(x) for x in xs]] where [f] may raise: the first exception wins. *)
Fixpoint mapM {A B} (f : A -> result B) (xs : list A) : result (list B) :=
  match xs with
  | [] => Ok []
  | x :: t => y <- f x ;; ys <- mapM f t ;; Ok (y :: ys)
  end.

(** ** Type mapper *)

(** A [dict] with text keys, in insertion order. *)
Definition dict (V : Type) := list (str * V).

Fixpoint dict_get {V} (d : dict V) (k : str) : option V :=
  match d with
  | [] => None
  | (k', v) :: t => if str_eqb k k' then Some v else dict_get t k
  end.

(** [k in d] *)
Definition dict_mem {V} (d : dict V) (k : str) : bool :=
  match dict_get d k with Some _ => true | None => false end.

(** [d[k]], which raises [KeyError] on a missing key. *)
Definition dict_getitem {V} (d : dict V) (k : str) : result V :=
  match dict_get d k with Some v => Ok v | None => Raise (KeyError k) end.

Definition ZIG_TO_CTYPES : dict str :=
  [ (L "i8", L "ctypes.c_int8");
    (L "i16", L "ctypes.c_int16");
    (L "i32", L "ctypes.c_int32");
    (L "i64", L "ctypes.c_int64");
    (L "u8", L "ctypes.c_uint8");
    (L "u16", L "ctypes.c_uint16");
    (L "u32", L "ctypes.c_uint32");
    (L "u64", L "ctypes.c_uint64");
    (L "f16", L "ctypes.c_float");
    (L "f32", L "ctypes.c_float");
    (L "f64", L "ctypes.c_double");
    (L "bool", L "ctypes.c_bool");
    (L "c_int", L "ctypes.c_int");
    (L "c_uint", L "ctypes.c_uint");
    (L "c_long", L "ctypes.c_long");
    (L "c_ulong", L "ctypes.c_ulong");
    (L "c_longlong", L "ctypes.c_longlong");
    (L "c_ulonglong", L "ctypes.c_ulonglong");
    (L "c_char", L "ctypes.c_char");
    (L "c_short", L "ctypes.c_short");
    (L "c_ushort", L "ctypes.c_ushort");
    (L "usize", L "ctypes.c_size_t");
    (L "isize", L "ctypes.c_ssize_t");
    (L "void", L "None");
    (L "[*c]const u8", L "ctypes.c_char_p");
    (L "[*c]u8", L "ctypes.c_char_p");
    (L "*const u8", L "ctypes.c_char_p");
    (L "*u8", L "ctypes.c_char_p");
    (L "[*]const u8", L "ctypes.c_char_p");
    (L "[*]u8", L "ctypes.c_char_p") ].

Definition c_void_p : str := L "ctypes.c_void_p".

(** The test shared by the pointer branch and the optional branch. *)
Definition pointer_shaped (s : str) : bool :=
  startswith s (L "*") || startswith s (L "[*").

(** [parse_zig_type]: table hit, then pointer sigil, then the optional
    branch (which returns only for a pointer-shaped inner spelling and
    otherwise falls through), then the default. *)
Definition parse_zig_type (zig_type : str) : result str :=
  let zig_type := strip zig_type in
  if dict_mem ZIG_TO_CTYPES zig_type then dict_getitem ZIG_TO_CTYPES zig_type
  else if pointer_shaped zig_type then Ok c_void_p
  else
    let fallthrough := Ok c_void_p in
    if startswith zig_type (L "?") then
      let inner := strip (tl zig_type) in
      if pointer_shaped inner then Ok c_void_p else fallthrough
    else fallthrough.

(** ** A backtracking matcher for the constructs of [export_pattern]

    The matcher returns the matches of a pattern at the start of the
    input, in the order in which a backtracking engine finds them, so the
    head of the list is the match the engine reports.  A greedy star
    tries one more iteration before stopping and a lazy one stops before
    trying; an iteration that consumes nothing is not repeated. *)

Inductive gname : Type := Gdoc | Gname | Gparams | Greturn.

Definition gname_eqb (a b : gname) : bool :=
  match a, b with
  | Gdoc, Gdoc | Gname, Gname | Gparams, Gparams | Greturn, Greturn => true
  | _, _ => false
  end.

Inductive regex : Type :=
| Eps
| Cls (p : ascii -> bool)
| Seq (a b : regex)
| Alt (a b : regex)
| Star (greedy : bool) (r : regex)
| Group (g : gname) (r : regex).

(** The state of a match attempt: the input still to read and the groups
    captured so far, the latest first. *)
Record mstate : Type := MState { rest : str; caps : list (gname * str) }.

Definition consumed (st st' : mstate) : str :=
  firstn (length (rest st) - length (rest st')) (rest st).

Definition progress (st st' : mstate) : bool :=
  length (rest st') <? length (rest st).

Fixpoint iterate (greedy : bool) (step : mstate -> list mstate)
    (fuel : nat) (st : mstate) : list mstate :=
  match fuel with
  | 0 => [st]
  | S f =>
      let more := flat_map (iterate greedy step f)
                    (filter (progress st) (step st)) in
      if greedy then more ++ [st] else st :: more
  end.

Fixpoint ms (r : regex) (st : mstate) : list mstate :=
  match r with
  | Eps => [st]
  | Cls p =>
      match rest st with
      | c :: t => if p c then [MState t (caps st)] else []
      | [] => []
      end
  | Seq a b => flat_map (ms b) (ms a st)
  | Alt a b => ms a st ++ ms b st
  | Star greedy r' => iterate greedy (ms r') (S (length (rest st))) st
  | Group g r' =>
      map (fun st' => MState (rest st') ((g, consumed st st') :: caps st'))
          (ms r' st)
  end.

Definition chr (c : ascii) : regex := Cls (Ascii.eqb c).
Definition lit (s : str) : regex := fold_right (fun c r => Seq (chr c) r) Eps s.
Definition plus (greedy : bool) (r : regex) : regex := Seq r (Star greedy r).
Definition opt (r : regex) : regex := Alt r Eps.
Definition cat (rs : list regex) : regex := fold_right Seq Eps rs.
Definition ws : regex := Cls is_space.
Definition not_chr (c : ascii) : regex := Cls (fun x => negb (Ascii.eqb x c)).

(** [m.group(g)]: the latest capture of [g]. *)
Fixpoint group (cs : list (gname * str)) (g : gname) : str :=
  match cs with
  | [] => []
  | (g', w) :: t => if gname_eqb g g' then w else group t g
  end.

(** [pattern.finditer(s)]: attempts at successive positions; after a match
    the scan resumes where the match ended. *)
Fixpoint finditer_from (r : regex) (fuel : nat) (s : str) : list mstate :=
  match fuel with
  | 0 => []
  | S f =>
      let skip := match s with [] => [] | _ :: t => finditer_from r f t end in
      match ms r (MState s []) with
      | m :: _ =>
          m :: (if length (rest m) <? length s
                then finditer_from r f (rest m) else skip)
      | [] => skip
      end
  end.

Definition finditer (r : regex) (s : str) : list mstate :=
  finditer_from r (S (length s)) s.

(** ** Export scanner *)

Record ZigFunction : Type := mkZigFunction {
  name : str;
  return_type : str;
  params : list (str * str);
  doc : str;
  release_gil : bool
}.

Definition doc_line : regex :=
  cat [lit (L "///"); Star true (not_chr nl); chr nl].

Definition export_pattern : regex :=
  cat [ Group Gdoc (Star true doc_line);
        Star true ws; opt (cat [lit (L "pub"); plus true ws]);
        lit (L "export"); plus true ws; lit (L "fn"); plus true ws;
        Group Gname (plus true (Cls is_word));
        Star true ws; chr "("%char;
        Group Gparams (Star true (not_chr ")"%char));
        chr ")"%char; Star true ws;
        Group Greturn (plus false (not_chr "{"%char));
        Star true ws; chr "{"%char ].

(** The doc text of a stripped run of doc-comment lines. *)
Definition parse_doc (doc_lines : str) : str :=
  match doc_lines with
  | [] => []
  | _ =>
      join [nl]
        (map (fun line => strip (lstrip_by (Ascii.eqb "/"%char) line))
           (filter (fun line => startswith (strip line) (L "///"))
              (split nl doc_lines)))
  end.

(** One turn of the parameter loop: what [param] adds to [params]. *)
Definition parse_param (param : str) : list (str * str) :=
  let param := strip param in
  if str_eqb param [] || str_eqb param (L "...") then []
  else if startswith param (L "comptime") then []
  else if contains ":"%char param then
    let '(a, b) := split1 ":"%char param in [(strip a, strip b)]
  else [].

Definition parse_params (params_str : str) : list (str * str) :=
  match params_str with
  | [] => []
  | _ => flat_map parse_param (split ","%char params_str)
  end.

Definition function_of_match (m : mstate) : ZigFunction :=
  let doc_lines := strip (group (caps m) Gdoc) in
  let params_str := strip (group (caps m) Gparams) in
  {| name := group (caps m) Gname;
     return_type := strip (group (caps m) Greturn);
     params := parse_params params_str;
     doc := parse_doc doc_lines;
     release_gil := true |}.

Definition parse_zig_exports (zig_source : str) : list ZigFunction :=
  map function_of_match (finditer export_pattern zig_source).

(** A [*.zig] file of the source tree: its path and what reading it as
    UTF-8 gives. *)
Record zig_file : Type := mkZigFile { zf_path : str; zf_read : result str }.

(** The body of the loop of [scan_zig_sources] for one file, with the
    parser as a parameter: the [try] block reads, parses and extends the
    list; the handler leaves the list alone and logs the file. *)
Definition scan_file (parse : str -> result (list ZigFunction))
    (acc : list ZigFunction * list (str * exn)) (f : zig_file)
    : list ZigFunction * list (str * exn) :=
  let '(all_functions, warnings) := acc in
  match (source <- zf_read f ;;
         functions <- parse source ;;
         Ok (all_functions ++ functions)) with
  | Ok all_functions' => (all_functions', warnings)
  | Raise e => (all_functions, warnings ++ [(zf_path f, e)])
  end.

(** What one file yields when it is read and parsed. *)
Definition outcome (parse : str -> result (list ZigFunction)) (f : zig_file)
    : result (list ZigFunction) :=
  source <- zf_read f ;; parse source.

Definition scan_with (parse : str -> result (list ZigFunction))
    (files : list zig_file) : list ZigFunction * list (str * exn) :=
  fold_left (scan_file parse) files ([], []).

(** [scan_zig_sources] on the files that [rglob] yields, in that order:
    the functions found and the warnings printed. *)
Definition scan_zig_sources (files : list zig_file)
    : list ZigFunction * list (str * exn) :=
  scan_with (fun source => Ok (parse_zig_exports source)) files.

(** ** Binding generator *)

Definition all_entry (func : ZigFunction) : str :=
  Q "    '" ++ name func ++ Q "',".

Definition init_header (module_name : str) : list str :=
  [ Q "'''";
    module_name ++ L " - Python bindings for Zig library.";
    L "";
    L "This module was automatically generated by ZigX.";
    L "https://github.com/muhammad-fiaz/zigx";
    Q "'''";
    L "";
    L "from __future__ import annotations";
    L "";
    L "import ctypes";
    L "import os";
    L "import sys";
    L "from pathlib import Path";
    L "from typing import Any, Optional";
    L "";
    L "# Module metadata";
    Q "__version__ = '0.1.0'";
    L "__all__ = [" ].

Definition rule_line : str :=
  L "# =============================================================================".

Definition library_loading (module_name lib_filename : str) : list str :=
  [ rule_line;
    L "# Library Loading";
    rule_line;
    L "";
    L "_lib: Optional[ctypes.CDLL] = None";
    L "";
    L "";
    L "def _get_lib_path() -> Path:";
    Q "    '''Find the native library path.'''";
    L "    module_dir = Path(__file__).parent";
    L "    ";
    L "    # Platform-specific library names";
    Q "    if sys.platform == 'win32':";
    Q "        lib_names = ['" ++ lib_filename ++ Q "', '" ++ module_name
      ++ Q ".dll', 'lib" ++ module_name ++ Q ".dll']";
    Q "    elif sys.platform == 'darwin':";
    Q "        lib_names = ['" ++ lib_filename ++ Q "', 'lib" ++ module_name
      ++ Q ".dylib', '" ++ module_name ++ Q ".dylib']";
    L "    else:";
    Q "        lib_names = ['" ++ lib_filename ++ Q "', 'lib" ++ module_name
      ++ Q ".so', '" ++ module_name ++ Q ".so']";
    L "    ";
    L "    for name in lib_names:";
    L "        lib_path = module_dir / name";
    L "        if lib_path.exists():";
    L "            return lib_path";
    L "    ";
    L "    raise OSError(";
    Q "        f'Could not find " ++ module_name ++ Q " native library. '";
    Q "        f'Searched in {{module_dir}} for: {{lib_names}}'";
    L "    )";
    L "";
    L "";
    L "def _load_library() -> ctypes.CDLL:";
    Q "    '''Load the native library.'''";
    L "    global _lib";
    L "    if _lib is not None:";
    L "        return _lib";
    L "    ";
    L "    lib_path = _get_lib_path()";
    L "    ";
    L "    try:";
    L "        _lib = ctypes.CDLL(str(lib_path))";
    L "    except OSError as e:";
    L "        raise OSError(";
    Q "            f'Failed to load " ++ module_name
      ++ Q " native library from {lib_path}: {e}'";
    L "        ) from e";
    L "    ";
    L "    return _lib";
    L "";
    L "" ].

Definition gil_management : list str :=
  [ rule_line;
    L "# GIL Management";
    rule_line;
    L "";
    L "class _ReleaseGIL:";
    Q "    '''Context manager for releasing the GIL during native calls.'''";
    L "    ";
    Q "    __slots__ = ('_state',)";
    L "    ";
    Q "    def __enter__(self) -> '_ReleaseGIL':";
    L "        # For ctypes calls, the GIL is automatically released";
    L "        # This is a marker for documentation purposes";
    L "        return self";
    L "    ";
    L "    def __exit__(self, *args: Any) -> None:";
    L "        pass";
    L "";
    L "";
    L "_release_gil = _ReleaseGIL()";
    L "";
    L "" ].

Definition bindings_header : list str :=
  [ rule_line; L "# Function Bindings"; rule_line; L "" ].

Definition module_init : list str :=
  [ rule_line;
    L "# Module Initialization";
    rule_line;
    L "";
    L "# Pre-load library on import for faster first call";
    L "try:";
    L "    _load_library()";
    L "except OSError:";
    L "    # Library will be loaded on first function call";
    L "    pass" ].

(** The docstring of a wrapper. *)
Definition wrapper_doc (func : ZigFunction) : list str :=
  [ Q "    '''" ++ name func ]
  ++ (match doc func with
      | [] => []
      | _ => L "" :: map (fun doc_line => L "    " ++ doc_line)
                       (split nl (doc func))
      end)
  ++ (match params func with
      | [] => []
      | _ => [ L ""; L "    Args:" ]
             ++ map (fun '(param_name, param_type) =>
                       L "        " ++ param_name ++ L ": " ++ param_type)
                  (params func)
      end)
  ++ (if negb (str_eqb (return_type func) [])
         && negb (str_eqb (return_type func) (L "void"))
      then [ L ""; L "    Returns:"; L "        " ++ return_type func ]
      else [])
  ++ [ Q "    '''" ].

Definition param_list (func : ZigFunction) : str :=
  join (L ", ") (map fst (params func)).

(** The lines of one wrapper function. *)
Definition wrapper (gil_release : bool) (func : ZigFunction)
    : result (list str) :=
  argtypes_line <-
    (match params func with
     | [] => Ok (L "    func.argtypes = []")
     | _ => argtypes <- mapM parse_zig_type (map snd (params func)) ;;
            Ok (L "    func.argtypes = [" ++ join (L ", ") argtypes ++ L "]")
     end) ;;
  restype <- parse_zig_type (return_type func) ;;
  Ok ([ L "def " ++ name func ++ L "(" ++ param_list func ++ L "):" ]
      ++ wrapper_doc func
      ++ [ L "    lib = _load_library()";
           L "    func = lib." ++ name func;
           argtypes_line;
           L "    func.restype = " ++ restype ]
      ++ (if gil_release && release_gil func
          then [ L "    with _release_gil:";
                 match param_list func with
                 | [] => L "        return func()"
                 | _ => L "        return func(" ++ param_list func ++ L ")"
                 end ]
          else [ match param_list func with
                 | [] => L "    return func()"
                 | _ => L "    return func(" ++ param_list func ++ L ")"
                 end ])
      ++ [ L ""; L "" ]).

Definition generate_init_py_lines (module_name : str)
    (functions : list ZigFunction) (lib_filename : str) (gil_release : bool)
    : result (list str) :=
  wrappers <- mapM (wrapper gil_release) functions ;;
  Ok (init_header module_name
      ++ map all_entry functions
      ++ [ L "]"; L "" ]
      ++ library_loading module_name lib_filename
      ++ (if gil_release then gil_management else [])
      ++ bindings_header
      ++ concat wrappers
      ++ module_init).

Definition generate_init_py (module_name : str)
    (functions : list ZigFunction) (lib_filename : str) (gil_release : bool)
    : result str :=
  lines <- generate_init_py_lines module_name functions lib_filename
             gil_release ;;
  Ok (join [nl] lines).

(** ** The host *)

(** A path is the list of its components; [p / name] adds one. *)
Definition path := list str.

Definition pdiv (p : path) (name : str) : path := p ++ [name].
Definition path_name (p : path) : str := last p [].
Definition path_parent (p : path) : path := removelast p.

(** [p.relative_to(base)] for a [p] below [base]. *)
Definition relative_to (base p : path) : path := skipn (length base) p.

(** A file or directory of the file system. *)
Inductive node : Type :=
| File (content : list ascii)
| Dir.

Definition fs := list (path * node).

Fixpoint fs_find (t : fs) (p : path) : option node :=
  match t with
  | [] => None
  | (p', n) :: rest =>
      if list_eq_dec (list_eq_dec ascii_dec) p p' then Some n
      else fs_find rest p
  end.

Definition fs_exists (t : fs) (p : path) : bool :=
  match fs_find t p with Some _ => true | None => false end.

(** Writing a path replaces the node that was there, or adds one. *)
Fixpoint fs_write (t : fs) (p : path) (n : node) : fs :=
  match t with
  | [] => [(p, n)]
  | (p', n') :: rest =>
      if list_eq_dec (list_eq_dec ascii_dec) p p' then (p, n) :: rest
      else (p', n') :: fs_write rest p n
  end.

(** The path and the paths above it, outermost first. *)
Fixpoint inits (p : path) : list path :=
  match p with
  | [] => []
  | c :: r => [c] :: map (cons c) (inits r)
  end.

Definition ancestors (p : path) : list path := removelast (inits p).

(** One step of [mkdir(parents=True)]: the directory [q] is made unless
    something is there. *)
Definition mkdir_step (t : fs) (q : path) : fs :=
  if fs_exists t q then t else fs_write t q Dir.

(** [p.mkdir(parents=True, exist_ok=True)] where it succeeds: the
    directory and its missing ancestors are made. *)
Definition fs_mkdir (t : fs) (p : path) : fs :=
  fold_left mkdir_step (inits p) t.

Definition fs_write_all (t : fs) (files : fs) : fs :=
  fold_left (fun t' '(p, n) => fs_write t' p n) files t.

(** What [subprocess.run(..., capture_output=True, check=False)] gives
    back, and the files the process left behind. *)
Record completed : Type := mkCompleted {
  returncode : Z;
  stdout : str;
  stderr : str;
  written : fs
}.

(** The interpreter and the machine the build runs on.  [Path] and
    [path_str] go from a text to a path and back; [joinpath p s] is
    [p / s] for a text [s] that may hold several components, or be
    absolute and then replace [p]; [dir_order] is the order in which the
    file system lists the entries below a directory. *)
Record host : Type := mkHost {
  sys_platform : str;
  platform_system : str;
  platform_machine : str;
  implementation_name : str;
  version_major : nat;
  version_minor : nat;
  sep : ascii;
  path_str : path -> str;
  Path : str -> path;
  joinpath : path -> str -> path;
  which_zig : option str;
  environ : dict str;
  home : path;
  disk : fs;
  dir_order : fs -> fs;
  glob : path -> str -> list path;
  rglob_zig : path -> list zig_file;
  run : list str -> path -> completed
}.

(** ** Directories and text files *)

Definition is_file (t : fs) (p : path) : bool :=
  match fs_find t p with Some (File _) => true | _ => false end.

Definition is_dir (t : fs) (p : path) : bool :=
  match fs_find t p with Some Dir => true | _ => false end.

(** [p.mkdir(parents=True, exist_ok=exist_ok)]: the directory and its
    missing ancestors are created.  A file in the place of an ancestor is
    an [OSError] (which subclass depends on the platform); a file in the
    place of the directory, or the directory itself without [exist_ok],
    is a [FileExistsError]. *)
Definition mkdir (h : host) (exist_ok : bool) (t : fs) (p : path)
    : result fs :=
  if existsb (is_file t) (ancestors p) then Raise (OSError (path_str h p))
  else
    match fs_find t p with
    | Some Dir =>
        if exist_ok then Ok t else Raise (FileExistsError (path_str h p))
    | Some (File _) => Raise (FileExistsError (path_str h p))
    | None => Ok (fs_mkdir t p)
    end.

(** [os.linesep] *)
Definition linesep (h : host) : str :=
  if str_eqb (sys_platform h) (L "win32") then [ "013"%char; "010"%char ]
  else [ "010"%char ].

(** [s.lower()] *)
Definition lower_char (c : ascii) : ascii :=
  let n := nat_of_ascii c in
  if ((65 <=? n) && (n <=? 90)) || ((192 <=? n) && (n <=? 214))
     || ((216 <=? n) && (n <=? 222))
  then ascii_of_nat (n + 32) else c.

Definition lower (s : str) : str := map lower_char s.

Definition mem_str (s : str) (l : list str) : bool := existsb (str_eqb s) l.

(** ** Python version detection *)

Definition get_python_tag (h : host) : str :=
  let impl := implementation_name h in
  let prefix :=
    if str_eqb impl (L "cpython") then L "cp"
    else if str_eqb impl (L "pypy") then L "pp"
    else firstn 2 impl in
  prefix ++ str_of_nat (version_major h) ++ str_of_nat (version_minor h).

Definition get_abi_tag (h : host) : str := get_python_tag h.

Definition get_platform_tag (h : host) : str :=
  let system := lower (platform_system h) in
  let machine := lower (platform_machine h) in
  if str_eqb system (L "windows") then
    if mem_str machine [L "amd64"; L "x86_64"] then L "win_amd64"
    else if str_eqb machine (L "arm64") then L "win_arm64"
    else L "win32"
  else if str_eqb system (L "darwin") then
    if str_eqb machine (L "arm64") then L "macosx_11_0_arm64"
    else if str_eqb machine (L "x86_64") then L "macosx_10_9_x86_64"
    else L "macosx_10_9_" ++ machine
  else if str_eqb system (L "linux") then
    if str_eqb machine (L "x86_64") then L "manylinux2014_x86_64"
    else if str_eqb machine (L "aarch64") then L "manylinux2014_aarch64"
    else L "linux_" ++ machine
  else system ++ L "_" ++ machine.

(** ** Zig compilation *)

Definition environ_get (h : host) (k : str) : str :=
  match dict_get (environ h) k with Some v => v | None => [] end.

Definition common_paths (h : host) : list path :=
  if str_eqb (sys_platform h) (L "win32") then
    [ pdiv (pdiv (Path h (environ_get h (L "LOCALAPPDATA"))) (L "zig"))
        (L "zig.exe");
      pdiv (pdiv (Path h (environ_get h (L "PROGRAMFILES"))) (L "zig"))
        (L "zig.exe");
      pdiv (pdiv (home h) (L ".zig")) (L "zig.exe") ]
  else
    [ pdiv (pdiv (pdiv (home h) (L ".local")) (L "bin")) (L "zig");
      Path h (L "/usr/local/bin/zig");
      Path h (L "/usr/bin/zig");
      pdiv (pdiv (home h) (L ".zig")) (L "zig") ].

Definition zig_not_found : str :=
  L "Could not find Zig compiler. Please install Zig and ensure it's in your PATH. "
  ++ L "Visit https://ziglang.org/download/ for installation instructions.".

Definition find_zig (h : host) : result str :=
  match which_zig h with
  | Some ((_ :: _) as zig_path) => Ok zig_path
  | _ =>
      match find (fs_exists (disk h)) (common_paths h) with
      | Some p => Ok (path_str h p)
      | None => Raise (FileNotFoundError zig_not_found)
      end
  end.

Definition arch_map : dict str :=
  [ (L "x86_64", L "x86_64"); (L "amd64", L "x86_64");
    (L "arm64", L "aarch64"); (L "aarch64", L "aarch64");
    (L "i386", L "x86"); (L "i686", L "x86") ].

Definition get_zig_target (h : host) : str :=
  let system := lower (platform_system h) in
  let machine := lower (platform_machine h) in
  let arch := match dict_get arch_map machine with
              | Some a => a | None => machine end in
  let os_map : dict str :=
    [ (L "windows", arch ++ L "-windows-gnu");
      (L "darwin", arch ++ L "-macos");
      (L "linux", arch ++ L "-linux-gnu") ] in
  match dict_get os_map system with
  | Some t => t
  | None => arch ++ L "-" ++ system ++ L "-gnu"
  end.

Definition get_lib_extension (h : host) : str :=
  if str_eqb (sys_platform h) (L "win32") then L ".dll"
  else if str_eqb (sys_platform h) (L "darwin") then L ".dylib"
  else L ".so".

(** The main Zig file: the first conventional name that exists, else the
    first file the directory listing gives. *)
Definition find_main_file (h : host) (t : fs) (src_dir : path)
    (module_name : str) : result path :=
  let main_files := [ L "lib.zig"; L "main.zig"; module_name ++ L ".zig" ] in
  match find (fs_exists t) (map (pdiv src_dir) main_files) with
  | Some candidate => Ok candidate
  | None =>
      match glob h src_dir (L "*.zig") with
      | first :: _ => Ok first
      | [] => Raise (FileNotFoundError
                (L "No Zig source files found in " ++ path_str h src_dir))
      end
  end.

Definition zig_command (h : host) (zig : str) (main_file output_file : path)
    (release strip_ : bool) : list str :=
  [ zig; L "build-lib"; path_str h main_file; L "-dynamic";
    L "-femit-bin=" ++ path_str h output_file; L "-fno-emit-h";
    if release then L "-OReleaseFast" else L "-ODebug" ]
  ++ (if strip_ then [ L "-fstrip" ] else [])
  ++ [ L "-target"; get_zig_target h ].

(** [compile_zig] on a file system [t]: the file system after the call
    and the path of the library, or the exception raised.  The output
    directory is created before the compiler runs; the files the compiler
    wrote are added afterwards. *)
Definition compile_zig (h : host) (t : fs) (src_dir output_dir : path)
    (module_name : str) (release strip_ : bool) : fs * result path :=
  match find_zig h with
  | Raise e => (t, Raise e)
  | Ok zig =>
      match find_main_file h t src_dir module_name with
      | Raise e => (t, Raise e)
      | Ok main_file =>
          let lib_name := L "lib" ++ module_name in
          let lib_ext := get_lib_extension h in
          let output_file := pdiv output_dir (lib_name ++ lib_ext) in
          let cmd := zig_command h zig main_file output_file release strip_ in
          let t1 := fs_mkdir t output_dir in
          let result := run h cmd (path_parent src_dir) in
          let t2 := fs_write_all t1 (written result) in
          if negb (returncode result =? 0)%Z then
            let error_msg := match stderr result with
                             | [] => stdout result
                             | _ => stderr result
                             end in
            (t2, Raise (CalledProcessError (returncode result) cmd
                          (stdout result)
                          (L "Zig compilation failed:" ++ [nl] ++ error_msg)))
          else if negb (fs_exists t2 output_file) then
            (t2, Raise (FileNotFoundError
                          (L "Compilation completed but output file not found: "
                           ++ path_str h output_file)))
          else (t2, Ok output_file)
      end
  end.

(** ** Wheel building *)

Definition bytes := list ascii.

(** ** SHA-256

    [hashlib.sha256(content).digest()], after FIPS 180-4, on 32-bit words
    held in [N]. *)

Definition w32 (x : N) : N := N.land x 0xFFFFFFFF.
Definition add32 (a b : N) : N := w32 (a + b).
Definition rotr (n x : N) : N :=
  N.lor (N.shiftr x n) (w32 (N.shiftl x (32 - n))).
Definition xor3 (a b c : N) : N := N.lxor a (N.lxor b c).

Definition sha_ch (x y z : N) : N :=
  N.lxor (N.land x y) (N.land (N.lxor x 0xFFFFFFFF) z).
Definition sha_maj (x y z : N) : N :=
  xor3 (N.land x y) (N.land x z) (N.land y z).
Definition big_sigma0 (x : N) : N := xor3 (rotr 2 x) (rotr 13 x) (rotr 22 x).
Definition big_sigma1 (x : N) : N := xor3 (rotr 6 x) (rotr 11 x) (rotr 25 x).
Definition small_sigma0 (x : N) : N :=
  xor3 (rotr 7 x) (rotr 18 x) (N.shiftr x 3).
Definition small_sigma1 (x : N) : N :=
  xor3 (rotr 17 x) (rotr 19 x) (N.shiftr x 10).

(** The first 64 primes: the round constants are the first 32 bits of
    the fractional parts of their cube roots, and the initial hash value
    comes from the square roots of the first eight. *)
Definition sha_primes : list N :=
  [ 2; 3; 5; 7; 11; 13; 17; 19; 23; 29; 31; 37; 41; 43; 47; 53; 59; 61; 67;
    71; 73; 79; 83; 89; 97; 101; 103; 107; 109; 113; 127; 131; 137; 139; 149;
    151; 157; 163; 167; 173; 179; 181; 191; 193; 197; 199; 211; 223; 227;
    229; 233; 239; 241; 251; 257; 263; 269; 271; 277; 281; 283; 293; 307;
    311 ]%N.

(** The integer cube root of [n], one bit at a time from bit [bits]. *)
Fixpoint cube_root (bits : nat) (n x : N) : N :=
  match bits with
  | 0 => x
  | S b =>
      let y := (x + N.shiftl 1 (N.of_nat b))%N in
      cube_root b n (if (y * y * y <=? n)%N then y else x)
  end.

Definition sha_k : list N :=
  Eval vm_compute in
    map (fun p => w32 (cube_root 40 (N.shiftl p 96) 0)) sha_primes.

Definition sha_h0 : list N :=
  Eval vm_compute in
    map (fun p => w32 (N.sqrt (N.shiftl p 64))) (firstn 8 sha_primes).

(** The message followed by the bit 1, zeros up to 56 modulo 64 and the
    bit length on eight bytes. *)
Definition be_bytes (count : nat) (x : N) : list N :=
  map (fun i => N.land (N.shiftr x (8 * N.of_nat i)) 0xFF)
    (rev (seq 0 count)).

Definition sha_pad (message : list N) : list N :=
  let len := length message in
  let zeros := (64 - (len + 9) mod 64) mod 64 in
  message ++ [0x80%N] ++ repeat 0%N zeros
  ++ be_bytes 8 (8 * N.of_nat len).

Fixpoint be_words (fuel : nat) (bs : list N) : list N :=
  match fuel, bs with
  | S f, a :: b :: c :: d :: rest =>
      (N.shiftl a 24 + N.shiftl b 16 + N.shiftl c 8 + d)%N :: be_words f rest
  | _, _ => []
  end.

(** The message schedule: [w] holds the words so far, the latest first. *)
Fixpoint sha_schedule (count : nat) (w : list N) : list N :=
  match count with
  | 0 => rev w
  | S c =>
      let next :=
        add32 (add32 (small_sigma1 (nth 1 w 0%N)) (nth 6 w 0%N))
              (add32 (small_sigma0 (nth 14 w 0%N)) (nth 15 w 0%N)) in
      sha_schedule c (next :: w)
  end.

Definition sha_round (state : list N) (kw : N * N) : list N :=
  match state with
  | [a; b; c; d; e; f; g; h] =>
      let t1 := add32 (add32 (add32 h (big_sigma1 e)) (sha_ch e f g))
                  (add32 (fst kw) (snd kw)) in
      let t2 := add32 (big_sigma0 a) (sha_maj a b c) in
      [ add32 t1 t2; a; b; c; add32 d t1; e; f; g ]
  | _ => state
  end.

Definition sha_block (state : list N) (block : list N) : list N :=
  let w := sha_schedule 48 (rev (be_words 16 block)) in
  map (fun '(x, y) => add32 x y)
    (combine state (fold_left sha_round (combine sha_k w) state)).

Fixpoint sha_blocks (fuel : nat) (state : list N) (bs : list N) : list N :=
  match fuel, bs with
  | S f, _ :: _ => sha_blocks f (sha_block state (firstn 64 bs)) (skipn 64 bs)
  | _, _ => state
  end.

Definition sha256 (content : bytes) : bytes :=
  let padded := sha_pad (map N_of_ascii content) in
  map ascii_of_N
    (flat_map (be_bytes 4) (sha_blocks (length padded) sha_h0 padded)).

(** [text.encode("utf-8")] for code points below 256. *)
Definition encode_utf8 (s : str) : bytes :=
  flat_map (fun c =>
    let n := nat_of_ascii c in
    if n <? 128 then [c]
    else [ascii_of_nat (192 + n / 64); ascii_of_nat (128 + n mod 64)]) s.

Definition b64_alphabet : str :=
  L "ABCDEFGHIJKLMNOPQRSTUVWXYZabcdefghijklmnopqrstuvwxyz0123456789-_".

Definition b64_digit (n : nat) : ascii := nth n b64_alphabet "="%char.

(** [base64.urlsafe_b64encode] *)
Fixpoint urlsafe_b64encode_from (fuel : nat) (bs : bytes) : str :=
  match fuel with
  | 0 => []
  | S f =>
      match map nat_of_ascii bs with
      | [] => []
      | [a] => [ b64_digit (a / 4); b64_digit (a mod 4 * 16);
                 "="%char; "="%char ]
      | [a; b] => [ b64_digit (a / 4); b64_digit (a mod 4 * 16 + b / 16);
                    b64_digit (b mod 16 * 4); "="%char ]
      | a :: b :: c :: _ =>
          [ b64_digit (a / 4); b64_digit (a mod 4 * 16 + b / 16);
            b64_digit (b mod 16 * 4 + c / 64); b64_digit (c mod 64) ]
          ++ urlsafe_b64encode_from f (skipn 3 bs)
      end
  end.

Definition urlsafe_b64encode (bs : bytes) : str :=
  urlsafe_b64encode_from (S (length bs)) bs.

Fixpoint is_below (root p : path) : bool :=
  match root, p with
  | [], _ :: _ => true
  | r :: root', c :: p' => str_eqb r c && is_below root' p'
  | _, _ => false
  end.

(** [root.rglob("*")]: every file and directory below [root], in the
    order in which the file system lists them. *)
Definition rglob (h : host) (t : fs) (root : path) : fs :=
  dir_order h (filter (fun '(p, _) => is_below root p) t).

(** [str(rel_path).replace("\\", "/")] *)
Definition arc_name (h : host) (rel_path : path) : str :=
  replace "\"%char "/"%char (join [sep h] rel_path).

Definition hash_b64 (content : bytes) : str :=
  rstrip_by (Ascii.eqb "="%char) (urlsafe_b64encode (sha256 content)).

(** The line of one file: path, digest and length. *)
Definition record_entry (h : host) (wheel_dir file_path : path)
    (content : bytes) : str :=
  arc_name h (relative_to wheel_dir file_path)
  ++ L ",sha256=" ++ hash_b64 content
  ++ L "," ++ str_of_nat (length content).

Definition record_line (h : host) (wheel_dir : path)
    (entry : path * node) : list str :=
  match entry with
  | (file_path, File content) =>
      if negb (str_eqb (path_name file_path) (L "RECORD")) then
        [ record_entry h wheel_dir file_path content ]
      else []
  | (_, Dir) => []
  end.

Definition create_wheel_record_lines (h : host) (t : fs)
    (wheel_dir : path) : list str :=
  flat_map (record_line h wheel_dir) (rglob h t wheel_dir)
  ++ [ L "RECORD,," ].

Definition create_wheel_record (h : host) (t : fs) (wheel_dir : path)
    : str :=
  join [nl] (create_wheel_record_lines h t wheel_dir).

(** The project metadata, as [get_project_metadata] hands it on: [name]
    and [version] are always there, the other keys are read with [get]. *)
Inductive license_info : Type :=
| LicenseTable (d : dict str)
| LicenseText (s : str).

Inductive author : Type :=
| AuthorTable (d : dict str)
| AuthorOther (s : str).

Record metadata : Type := mkMetadata {
  md_name : str;
  md_version : str;
  md_description : option str;
  md_requires_python : option str;
  md_license : option license_info;
  md_authors : option (list author);
  md_classifiers : option (list str);
  md_dependencies : option (list str);
  md_urls : option (dict str)
}.

Definition get_or {A} (o : option A) (d : A) : A :=
  match o with Some a => a | None => d end.

Definition author_line (a : author) : list str :=
  match a with
  | AuthorTable d =>
      let name_str := get_or (dict_get d (L "name")) [] in
      let email_str := get_or (dict_get d (L "email")) [] in
      match name_str, email_str with
      | _ :: _, _ :: _ =>
          [ L "Author-Email: " ++ name_str ++ L " <" ++ email_str ++ L ">" ]
      | _ :: _, [] => [ L "Author: " ++ name_str ]
      | [], _ => []
      end
  | AuthorOther _ => []
  end.

Definition license_line (l : license_info) : list str :=
  match l with
  | LicenseTable [] => []
  | LicenseTable d => [ L "License: " ++ get_or (dict_get d (L "text")) [] ]
  | LicenseText [] => []
  | LicenseText s => [ L "License: " ++ s ]
  end.

Definition meta_lines (m : metadata) : list str :=
  [ L "Metadata-Version: 2.1";
    L "Name: " ++ md_name m;
    L "Version: " ++ md_version m ]
  ++ (match md_description m with
      | Some ((_ :: _) as d) => [ L "Summary: " ++ d ]
      | _ => []
      end)
  ++ (match md_requires_python m with
      | Some ((_ :: _) as r) => [ L "Requires-Python: " ++ r ]
      | _ => []
      end)
  ++ (match md_license m with
      | Some l => license_line l
      | None => []
      end)
  ++ flat_map author_line (get_or (md_authors m) [])
  ++ map (fun classifier => L "Classifier: " ++ classifier)
       (get_or (md_classifiers m) [])
  ++ map (fun dep => L "Requires-Dist: " ++ dep)
       (get_or (md_dependencies m) [])
  ++ map (fun '(url_name, url_value) =>
            L "Project-URL: " ++ url_name ++ L ", " ++ url_value)
       (get_or (md_urls m) []).

Definition wheel_lines (python_tag abi_tag platform_tag : str) : list str :=
  [ L "Wheel-Version: 1.0";
    L "Generator: zigx";
    L "Root-Is-Purelib: false";
    L "Tag: " ++ python_tag ++ L "-" ++ abi_tag ++ L "-" ++ platform_tag ].

Definition create_wheel_metadata (m : metadata)
    (python_tag abi_tag platform_tag : str) : str * str :=
  (join [nl] (meta_lines m),
   join [nl] (wheel_lines python_tag abi_tag platform_tag)).

(** The [tool.zigx] table, as [get_zigx_config] hands it on. *)
Record zigx_config : Type := mkConfig {
  cfg_src_dir : str;
  cfg_module_name : option str;
  cfg_release : bool;
  cfg_strip : bool;
  cfg_gil_release : bool;
  cfg_features : list str
}.

(** The calls a build makes into the compiler driver and the scanner. *)
Inductive event : Type :=
| CompileZig (src_dir output_dir : path) (module_name : str)
| ScanZigSources (src_dir : path).

Record built : Type := mkBuilt {
  wheel_name : str;
  staged : fs;
  members : list (str * bytes)
}.

(** The bytes of a text written in text mode: every newline becomes the
    line separator of the platform, and the text is encoded as UTF-8. *)
Definition text_bytes (h : host) (content : str) : bytes :=
  encode_utf8
    (flat_map (fun c => if Ascii.eqb c nl then linesep h else [c]) content).

(** [p.write_text(content, encoding="utf-8")] for a [p] whose parent is
    there: a directory in the place of the file is an [OSError]. *)
Definition write_text (h : host) (t : fs) (p : path) (content : str)
    : result fs :=
  match fs_find t p with
  | Some Dir => Raise (OSError (path_str h p))
  | _ => Ok (fs_write t p (File (text_bytes h content)))
  end.

Definition files_below (h : host) (t : fs) (root : path)
    : list (path * bytes) :=
  flat_map (fun '(p, n) => match n with
                           | File c => [(p, c)]
                           | Dir => []
                           end) (rglob h t root).

Definition module_name_of (m : metadata) (cfg : zigx_config) : str :=
  match cfg_module_name cfg with
  | Some ((_ :: _) as module_name) => module_name
  | _ => replace "-"%char "_"%char (md_name m)
  end.

Definition dist_info_name_of (m : metadata) : str :=
  md_name m ++ L "-" ++ md_version m ++ L ".dist-info".

Definition wheel_name_of (h : host) (m : metadata) : str :=
  md_name m ++ L "-" ++ md_version m ++ L "-" ++ get_python_tag h
  ++ L "-" ++ get_abi_tag h ++ L "-" ++ get_platform_tag h ++ L ".whl".

(** Opening the archive: the wheel directory is made and the wheel file
    is opened for writing; a directory in the place of the file is an
    [OSError]. *)
Definition open_archive (h : host) (t : fs) (wheel_dir : path)
    (wheel_name : str) : result fs :=
  t' <- mkdir h true t wheel_dir ;;
  match fs_find t' (pdiv wheel_dir wheel_name) with
  | Some Dir => Raise (OSError (path_str h (pdiv wheel_dir wheel_name)))
  | _ => Ok t'
  end.

(** The payload of the package: the redirect file of an editable
    build, or the compiled library, the generated module and the type
    marker. *)
Definition stage_package (h : host) (t : fs) (project_dir temp_path : path)
    (m : metadata) (cfg : zigx_config) (editable : bool)
    : list event * result fs :=
  let module_name := module_name_of m cfg in
  let src_dir := joinpath h project_dir (cfg_src_dir cfg) in
  let pkg_dir := pdiv temp_path module_name in
  if editable then
    let pth_content := path_str h project_dir in
    let pth_file := pdiv temp_path (module_name ++ L ".pth") in
    ([], write_text h t pth_file pth_content)
  else
    let '(t2, compiled) :=
      compile_zig h t src_dir pkg_dir module_name
        (cfg_release cfg) (cfg_strip cfg) in
    match compiled with
    | Raise e => ([CompileZig src_dir pkg_dir module_name], Raise e)
    | Ok lib_path =>
        let lib_filename := path_name lib_path in
        let functions := fst (scan_zig_sources (rglob_zig h src_dir)) in
        ([CompileZig src_dir pkg_dir module_name; ScanZigSources src_dir],
         init_content <- generate_init_py module_name functions
                           lib_filename (cfg_gil_release cfg) ;;
         t3 <- write_text h t2 (pdiv pkg_dir (L "__init__.py")) init_content ;;
         write_text h t3 (pdiv pkg_dir (L "py.typed")) [])
    end.

(** [build_wheel_impl] with the metadata and the configuration read, and
    with the new directory that [tempfile.TemporaryDirectory] makes: the
    calls made, and the name of the wheel with the staged files and the
    members of the archive, or the exception raised. *)
Definition build_wheel_impl (h : host) (project_dir wheel_dir : path)
    (m : metadata) (cfg : zigx_config) (editable : bool)
    (temp_path : path) : list event * result built :=
  let module_name := module_name_of m cfg in
  let python_tag := get_python_tag h in
  let abi_tag := get_abi_tag h in
  let platform_tag := get_platform_tag h in
  let wheel_name := wheel_name_of h m in
  let pkg_dir := pdiv temp_path module_name in
  match mkdir h false (fs_write (disk h) temp_path Dir) pkg_dir with
  | Raise e => ([], Raise e)
  | Ok t1 =>
      let '(events, payload) :=
        stage_package h t1 project_dir temp_path m cfg editable in
      (events,
       t2 <- payload ;;
       let dist_info := pdiv temp_path (dist_info_name_of m) in
       t3 <- mkdir h false t2 dist_info ;;
       let '(metadata_content, wheel_content) :=
         create_wheel_metadata m python_tag abi_tag platform_tag in
       t4 <- write_text h t3 (pdiv dist_info (L "METADATA")) metadata_content ;;
       t5 <- write_text h t4 (pdiv dist_info (L "WHEEL")) wheel_content ;;
       t6 <- write_text h t5 (pdiv dist_info (L "top_level.txt")) module_name ;;
       let record_content := create_wheel_record h t6 temp_path in
       t7 <- write_text h t6 (pdiv dist_info (L "RECORD")) record_content ;;
       t8 <- open_archive h t7 wheel_dir wheel_name ;;
       Ok {| wheel_name := wheel_name;
             staged := rglob h t8 temp_path;
             members := map (fun '(file_path, content) =>
                               (arc_name h (relative_to temp_path file_path),
                                content))
                          (files_below h t8 temp_path) |})
  end.

Definition build_wheel (h : host) (cwd wheel_directory : path)
    (m : metadata) (cfg : zigx_config) (temp_path : path)
    : list event * result built :=
  build_wheel_impl h cwd wheel_directory m cfg false temp_path.

Definition build_editable (h : host) (cwd wheel_directory : path)
    (m : metadata) (cfg : zigx_config) (temp_path : path)
    : list event * result built :=
  build_wheel_impl h cwd wheel_directory m cfg true temp_path.

(** [get_requires_for_build_wheel] and its two siblings. *)
Definition get_requires_for_build : list str := [].

(** [prepare_metadata_for_build_wheel]: the directory name returned and
    the file system with the two metadata files written, or the exception
    raised. *)
Definition prepare_metadata_for_build_wheel (h : host) (t : fs)
    (meta_dir : path) (m : metadata) : result (str * fs) :=
  let dist_info_name := dist_info_name_of m in
  let dist_info := pdiv meta_dir dist_info_name in
  t1 <- mkdir h true t dist_info ;;
  let '(metadata_content, wheel_content) :=
    create_wheel_metadata m (get_python_tag h) (get_abi_tag h)
      (get_platform_tag h) in
  t2 <- write_text h t1 (pdiv dist_info (L "METADATA")) metadata_content ;;
  t3 <- write_text h t2 (pdiv dist_info (L "WHEEL")) wheel_content ;;
  Ok (dist_info_name, t3).

(** ** A sample host and project

    A Linux host with the compiler on the search path; the compiler
    writes the library it is asked for, and directories are listed from
    the newest entry to the oldest. *)

Definition demo_lib : path := [ L "tmp"; L "build"; L "demo"; L "libdemo.so" ].

Definition demo_source : str :=
  L "export fn add(a: i32, b: i32) i32 { return a + b; }".

Definition demo_host : host :=
  {| sys_platform := L "linux";
     platform_system := L "Linux";
     platform_machine := L "x86_64";
     implementation_name := L "cpython";
     version_major := 3;
     version_minor := 12;
     sep := "/"%char;
     path_str := fun p => L "/" ++ join (L "/") p;
     Path := fun s => filter (fun c => negb (str_eqb c [])) (split "/"%char s);
     joinpath := fun p s =>
       let parts := filter (fun c => negb (str_eqb c [])) (split "/"%char s) in
       if startswith s (L "/") then parts else p ++ parts;
     which_zig := Some (L "/usr/bin/zig");
     environ := [];
     home := [ L "home"; L "dev" ];
     disk := [ ([ L "proj" ], Dir);
               ([ L "proj"; L "src" ], Dir);
               ([ L "proj"; L "src"; L "lib.zig" ],
                File (encode_utf8 demo_source));
               ([ L "tmp" ], Dir) ];
     dir_order := @rev (path * node);
     glob := fun _ _ => [];
     rglob_zig := fun _ =>
       [ mkZigFile (L "/proj/src/lib.zig") (Ok demo_source) ];
     run := fun _ _ =>
       mkCompleted 0 [] [] [ (demo_lib, File [ "127"%char; "E"%char ]) ] |}.

Definition demo_metadata : metadata :=
  {| md_name := L "my-ext";
     md_version := L "1.2.0";
     md_description := Some (L "A demo");
     md_requires_python := Some (L ">=3.8");
     md_license := Some (LicenseTable [ (L "text", L "MIT") ]);
     md_authors := Some [ AuthorTable [ (L "name", L "Ann");
                                        (L "email", L "ann@example.org") ];
                          AuthorTable [ (L "name", L "Bob") ] ];
     md_classifiers := Some [ L "Programming Language :: Zig" ];
     md_dependencies := Some [ L "cffi" ];
     md_urls := Some [ (L "Homepage", L "https://example.org") ] |}.

Definition demo_config : zigx_config :=
  {| cfg_src_dir := L "src";
     cfg_module_name := Some (L "demo");
     cfg_release := true;
     cfg_strip := true;
     cfg_gil_release := true;
     cfg_features := [] |}.

(** A Windows host without a compiler. *)
Definition win_host : host :=
  {| sys_platform := L "win32";
     platform_system := L "Windows";
     platform_machine := L "AMD64";
     implementation_name := L "cpython";
     version_major := 3;
     version_minor := 12;
     sep := "092"%char;
     path_str := fun p => L "C:" ++ flat_map (cons "092"%char) p;
     Path := fun s =>
       filter (fun c => negb (str_eqb c [])) (split "092"%char s);
     joinpath := fun p s =>
       p ++ filter (fun c => negb (str_eqb c [])) (split "092"%char s);
     which_zig := None;
     environ := [];
     home := [ L "Users"; L "dev" ];
     disk := [ ([ L "proj" ], Dir);
               ([ L "proj"; L "pyproject.toml" ], File (L "[project]"));
               ([ L "tmp" ], Dir) ];
     dir_order := fun entries => entries;
     glob := fun _ _ => [];
     rglob_zig := fun _ => [];
     run := fun _ _ => mkCompleted 1 [] [] [] |}.

(** ** Vocabulary of the statements *)

(** The author entries that give a line: tables with a non-empty name. *)
Definition named (a : author) : bool :=
  match a with
  | AuthorTable d =>
      match dict_get d (L "name") with Some (_ :: _) => true | _ => false end
  | AuthorOther _ => false
  end.

(** The line of a named author. *)
Definition author_text (a : author) : str :=
  match a with
  | AuthorTable d =>
      match dict_get d (L "email") with
      | Some ((_ :: _) as email) =>
          L "Author-Email: " ++ get_or (dict_get d (L "name")) []
          ++ L " <" ++ email ++ L ">"
      | _ => L "Author: " ++ get_or (dict_get d (L "name")) []
      end
  | AuthorOther _ => []
  end.

(** The line of an optional one-valued field: none when the field is
    absent or empty. *)
Definition field_line (label : str) (value : option str) : list str :=
  match value with
  | Some ((_ :: _) as v) => [ label ++ v ]
  | _ => []
  end.

(** No node of [t] is [root] or lies below it. *)
Definition fresh (t : fs) (root : path) : bool :=
  forallb (fun '(p, _) =>
             negb (is_below root p)
             && negb (if list_eq_dec (list_eq_dec ascii_dec) p root
                      then true else false)) t.

(** [p] is neither [root] nor below it. *)
Definition outside (root p : path) : bool :=
  negb (is_below root p)
  && negb (if list_eq_dec (list_eq_dec ascii_dec) p root then true else false).

(** A name that is one component of a path, so that pathlib's [/] adds
    it as it is: not empty, not [.] or [..], and without a separator, a
    colon or the null character. *)
Definition file_name (s : str) : bool :=
  match s with [] => false | _ :: _ => true end
  && negb (str_eqb s (L ".")) && negb (str_eqb s (L ".."))
  && forallb (fun c => negb (existsb (Ascii.eqb c)
                               [ "/"%char; "\"%char; ":"%char; "000"%char ])) s.

(** What [tempfile.TemporaryDirectory] promises of the directory it
    makes: it is new, in a directory that exists. *)
Definition temp_dir_for (t : fs) (root : path) : bool :=
  fresh t root && forallb (is_dir t) (ancestors root).

(** A listing order gives back the entries it is given, no more and no
    fewer. *)
Definition reorders (order : fs -> fs) : Prop :=
  forall entries, Permutation (order entries) entries.

(** The manifest line of a file: its name in the archive, the digest of
    its bytes and their number. *)
Definition manifest_line (h : host) (rel_path : path) (content : bytes)
    : str :=
  arc_name h rel_path ++ L ",sha256=" ++ hash_b64 content
  ++ L "," ++ str_of_nat (length content).

(** The matches of a pattern, without an order: [matches r st st'] when
    [r] can take the attempt from [st] to [st']. *)
Inductive matches : regex -> mstate -> mstate -> Prop :=
| M_eps st : matches Eps st st
| M_cls p c t cs :
    p c = true -> matches (Cls p) (MState (c :: t) cs) (MState t cs)
| M_seq a b st1 st2 st3 :
    matches a st1 st2 -> matches b st2 st3 -> matches (Seq a b) st1 st3
| M_alt_l a b st st' : matches a st st' -> matches (Alt a b) st st'
| M_alt_r a b st st' : matches b st st' -> matches (Alt a b) st st'
| M_star_stop g r st : matches (Star g r) st st
| M_star_step g r st1 st2 st3 :
    matches r st1 st2 -> progress st1 st2 = true ->
    matches (Star g r) st2 st3 -> matches (Star g r) st1 st3
| M_group g r st st' :
    matches r st st' ->
    matches (Group g r) st
      (MState (rest st') ((g, consumed st st') :: caps st')).

(** [pat in s] *)
Fixpoint occurs (pat s : str) : bool :=
  startswith s pat || match s with [] => false | _ :: t => occurs pat t end.

(** A parameter as its author wrote it. *)
Inductive param : Type :=
| Named (param_name param_type : str)
| Comptime (text : str)
| Variadic.

Definition render_param (p : param) : str :=
  match p with
  | Named n t => n ++ L ": " ++ t
  | Comptime text => L "comptime " ++ text
  | Variadic => L "..."
  end.

(** An export declaration as its author wrote it: the texts of the doc
    comment lines before it, the visibility keyword, the name, the
    parameters and the return type. *)
Record decl : Type := mkDecl {
  d_docs : list str;
  d_pub : bool;
  d_name : str;
  d_params : list param;
  d_ret : str
}.

Definition render_docs (texts : list str) : str :=
  flat_map (fun text => L "///" ++ text ++ [nl]) texts.

Definition render_decl (d : decl) : str :=
  render_docs (d_docs d)
  ++ (if d_pub d then L "pub " else [])
  ++ L "export fn " ++ d_name d
  ++ L "(" ++ join (L ", ") (map render_param (d_params d)) ++ L ") "
  ++ d_ret d ++ L " {".

(** A text with a first and a last character, neither of them white
    space. *)
Definition trimmed (s : str) : bool :=
  match s with
  | [] => false
  | c :: _ => negb (is_space c) && negb (is_space (last s c))
  end.

Definition plain (forbidden : list ascii) (s : str) : bool :=
  forallb (fun c => negb (existsb (Ascii.eqb c) forbidden)) s.

Definition param_ok (p : param) : bool :=
  match p with
  | Named n t =>
      trimmed n && trimmed t
      && plain [ ","%char; ")"%char; ":"%char ] n
      && plain [ ","%char; ")"%char ] t
      && negb (startswith n (L "comptime"))
  | Comptime text => trimmed text && plain [ ","%char; ")"%char ] text
  | Variadic => true
  end.

Definition well_formed (d : decl) : bool :=
  forallb (plain [ nl ]) (d_docs d)
  && match d_name d with [] => false | _ => forallb is_word (d_name d) end
  && forallb param_ok (d_params d)
  && trimmed (d_ret d) && plain [ "{"%char ] (d_ret d).




(** The characters that [\s*(?:pub\s+)?] can read. *)
Definition pub_or_space (c : ascii) : bool :=
  is_space c || existsb (Ascii.eqb c) (L "pub").

(** The characters that [lstrip("/")] removes. *)
Definition slash (c : ascii) : bool := Ascii.eqb "/"%char c.

(** The declaration of scenario A, and a source with two declarations. *)
Definition add_decl : decl :=
  mkDecl [] false (L "add")
    [ Named (L "a") (L "i32"); Named (L "b") (L "i32") ] (L "i32").

Definition add_function : ZigFunction :=
  mkZigFunction (L "add") (L "i32")
    [ (L "a", L "i32"); (L "b", L "i32") ] [] true.


(** The text of an export declaration,
    [export\s+fn\s+\w+\s*\([^)]*\)\s*[^{]+?\s*\{]: [export_pattern] from
    the keyword on, without its groups. *)
Definition export_decl : regex :=
  cat [ lit (L "export"); plus true ws; lit (L "fn"); plus true ws;
        plus true (Cls is_word); Star true ws; chr "("%char;
        Star true (not_chr ")"%char); chr ")"%char; Star true ws;
        plus false (not_chr "{"%char); Star true ws; chr "{"%char ].

(** The text of a declaration begins at the start of [s]. *)
Definition declares_at (s : str) : bool :=
  match ms export_decl (MState s []) with [] => false | _ :: _ => true end.

(** The number of places of [s] at which the text of a declaration
    begins, comments and string literals included. *)
Fixpoint declarations (s : str) : nat :=
  (if declares_at s then 1 else 0)
  + match s with [] => 0 | _ :: t => declarations t end.

(** A file that holds no text of a declaration, or that cannot be
    read. *)
Definition quiet (f : zig_file) : bool :=
  match zf_read f with
  | Ok source => declarations source =? 0
  | Raise _ => true
  end.

(** The declaration of scenario A, up to its brace. *)
Definition add_text : str := L "export fn add(a: i32, b: i32) i32 {".

(* ================================================================== *)
(** * Part II: the properties                                          *)
(* ================================================================== *)

(** ** Text *)

Lemma str_eqb_spec (a b : str) : str_eqb a b = true <-> a = b.
Proof.
  revert b; induction a as [|x a IH]; intros [|y b]; simpl;
    try (split; congruence).
  rewrite andb_true_iff, Ascii.eqb_eq, IH. split.
  - intros [-> ->]; reflexivity.
  - intros E; injection E; auto.
Qed.

Lemma str_eqb_refl (a : str) : str_eqb a a = true.
Proof. apply str_eqb_spec; reflexivity. Qed.

Lemma str_eqb_neq (a b : str) : str_eqb a b = false <-> a <> b.
Proof.
  rewrite <- str_eqb_spec. destruct (str_eqb a b); split; congruence.
Qed.

Lemma startswith_app (s p : str) :
  startswith s p = true <-> exists t, s = p ++ t.
Proof.
  revert s; induction p as [|x p IH]; intros s; simpl.
  - split; [intros _; exists s; reflexivity | reflexivity].
  - destruct s as [|c s].
    + split; [discriminate | intros [t E]; discriminate].
    + rewrite andb_true_iff, Ascii.eqb_eq, IH. split.
      * intros [-> [t ->]]. exists t; reflexivity.
      * intros [t E]. injection E as -> ->. eauto.
Qed.

(** ** Type mapper *)

Lemma dict_getitem_of_mem {V} (d : dict V) (k : str) :
  dict_mem d k = true ->
  exists v, dict_getitem d k = Ok v /\ In v (map snd d).
Proof.
  unfold dict_mem, dict_getitem. induction d as [|[k' v] d IH]; simpl.
  - discriminate.
  - destruct (str_eqb k k').
    + intros _. exists v; auto.
    + intros H. destruct (IH H) as (w & E & I). exists w; auto.
Qed.

(** No key of the table starts with the optional sigil. *)
Lemma optional_not_in_table (t : str) :
  dict_mem ZIG_TO_CTYPES ("?"%char :: t) = false.
Proof. reflexivity. Qed.

Lemma optional_not_pointer_shaped (t : str) :
  pointer_shaped ("?"%char :: t) = false.
Proof. reflexivity. Qed.

(** C2. The type mapper returns a descriptor for every spelling and never
    raises: the descriptor is a value of the table or the opaque pointer,
    and equal spellings get equal descriptors. *)
Theorem parse_zig_type_total (zig_type : str) :
  exists d,
    parse_zig_type zig_type = Ok d
    /\ (In d (map snd ZIG_TO_CTYPES) \/ d = c_void_p)
    /\ forall zig_type', zig_type' = zig_type ->
         parse_zig_type zig_type' = Ok d.
Proof.
  assert (H : exists d, parse_zig_type zig_type = Ok d
                        /\ (In d (map snd ZIG_TO_CTYPES) \/ d = c_void_p)).
  { unfold parse_zig_type.
    destruct (dict_mem ZIG_TO_CTYPES (strip zig_type)) eqn:M.
    - destruct (dict_getitem_of_mem _ _ M) as (v & E & I). eauto.
    - exists c_void_p. split; [|auto].
      destruct (pointer_shaped (strip zig_type)); [reflexivity|].
      destruct (startswith (strip zig_type) (L "?")); [|reflexivity].
      destruct (pointer_shaped (strip (tl (strip zig_type)))); reflexivity. }
  destruct H as (d & E & I). exists d. repeat split; auto.
  intros ? ->; exact E.
Qed.

(** C3, as the code has it: an optional spelling maps to the opaque
    pointer whatever its inner spelling is. *)
Theorem parse_zig_type_optional (zig_type : str) :
  startswith (strip zig_type) (L "?") = true ->
  parse_zig_type zig_type = Ok c_void_p.
Proof.
  intros H. unfold parse_zig_type.
  destruct (strip zig_type) as [|c t]; [discriminate|].
  simpl in H. apply andb_true_iff in H as [H _].
  apply Ascii.eqb_eq in H; subst c.
  rewrite optional_not_in_table, optional_not_pointer_shaped.
  simpl startswith. cbv iota.
  destruct (pointer_shaped (strip (tl ("?"%char :: t)))); reflexivity.
Qed.

Lemma parse_zig_type_optional_witness :
  parse_zig_type (L "?*const u8") = Ok c_void_p.
Proof. apply parse_zig_type_optional. reflexivity. Defined.

(** C3, as the claim has it, fails: [?i32] is not in the table, its inner
    spelling [i32] maps to the 32-bit signed integer, and [?i32] maps to
    the opaque pointer. *)
Lemma optional_scalar_counterexample :
  dict_mem ZIG_TO_CTYPES (L "?i32") = false
  /\ parse_zig_type (L "i32") = Ok (L "ctypes.c_int32")
  /\ parse_zig_type (L "?i32") <> parse_zig_type (L "i32").
Proof. repeat split; discriminate. Qed.

(** ** Scanning a source tree *)

Lemma scan_file_step (parse : str -> result (list ZigFunction))
    (f : zig_file) (acc : list ZigFunction) (log : list (str * exn)) :
  scan_file parse (acc, log) f
  = (acc ++ match outcome parse f with
            | Ok functions => functions
            | Raise _ => []
            end,
     log ++ match outcome parse f with
            | Ok _ => []
            | Raise e => [(zf_path f, e)]
            end).
Proof.
  unfold scan_file, outcome.
  destruct (zf_read f) as [source|e]; simpl.
  - destruct (parse source) as [functions|e]; simpl;
      rewrite ?app_nil_r; reflexivity.
  - rewrite app_nil_r; reflexivity.
Qed.

Lemma scan_with_fold (parse : str -> result (list ZigFunction))
    (files : list zig_file) (acc : list ZigFunction) (log : list (str * exn)) :
  fold_left (scan_file parse) files (acc, log)
  = (acc ++ flat_map (fun f => match outcome parse f with
                               | Ok functions => functions
                               | Raise _ => []
                               end) files,
     log ++ flat_map (fun f => match outcome parse f with
                               | Ok _ => []
                               | Raise e => [(zf_path f, e)]
                               end) files).
Proof.
  revert acc log. induction files as [|f files IH]; intros acc log.
  - simpl. rewrite !app_nil_r; reflexivity.
  - cbn [fold_left flat_map]. rewrite scan_file_step, IH, <- !app_assoc.
    reflexivity.
Qed.

(** C5. The scan of a source tree always returns.  Whatever the parser
    does, a file whose read or parse raises adds no function and one
    warning, and the other files add their functions in order; for the
    scanner itself the functions are those of the files that can be
    read. *)
Theorem scan_skips_failing_files
    (parse : str -> result (list ZigFunction)) (files : list zig_file) :
  scan_with parse files
  = (flat_map (fun f => match outcome parse f with
                        | Ok functions => functions
                        | Raise _ => []
                        end) files,
     flat_map (fun f => match outcome parse f with
                        | Ok _ => []
                        | Raise e => [(zf_path f, e)]
                        end) files)
  /\ scan_zig_sources files
     = (flat_map (fun f => match zf_read f with
                           | Ok source => parse_zig_exports source
                           | Raise _ => []
                           end) files,
        flat_map (fun f => match zf_read f with
                           | Ok _ => []
                           | Raise e => [(zf_path f, e)]
                           end) files).
Proof.
  split.
  - unfold scan_with. rewrite scan_with_fold. reflexivity.
  - unfold scan_zig_sources, scan_with. rewrite scan_with_fold. simpl.
    f_equal; apply flat_map_ext; intros f; unfold outcome;
      destruct (zf_read f); reflexivity.
Qed.

(** ** Compiling *)

(** C6. Once the compiler and the main file are found, the compiler runs
    and the outcome is decided by its exit status and by the output file:
    a non-zero status raises the process error that carries the standard
    error, or the standard output when the standard error is empty; a
    zero status with no output file raises the not-found error; a zero
    status with the output file returns its path.  The process error is
    raised in no other case. *)
Theorem compile_zig_outcome (h : host) (t : fs) (src_dir output_dir : path)
    (module_name zig : str) (main_file : path) (release strip_ : bool) :
  find_zig h = Ok zig ->
  find_main_file h t src_dir module_name = Ok main_file ->
  let output_file :=
    pdiv output_dir ((L "lib" ++ module_name) ++ get_lib_extension h) in
  let cmd := zig_command h zig main_file output_file release strip_ in
  let r := run h cmd (path_parent src_dir) in
  let after := fs_write_all (fs_mkdir t output_dir) (written r) in
  let outcome :=
    snd (compile_zig h t src_dir output_dir module_name release strip_) in
  (returncode r <> 0%Z ->
   outcome = Raise (CalledProcessError (returncode r) cmd (stdout r)
                      (L "Zig compilation failed:" ++ [nl]
                       ++ match stderr r with
                          | [] => stdout r
                          | _ => stderr r
                          end)))
  /\ (returncode r = 0%Z -> fs_exists after output_file = false ->
      outcome = Raise (FileNotFoundError
                         (L "Compilation completed but output file not found: "
                          ++ path_str h output_file)))
  /\ (returncode r = 0%Z -> fs_exists after output_file = true ->
      outcome = Ok output_file)
  /\ ((exists rc c o e, outcome = Raise (CalledProcessError rc c o e)) ->
      returncode r <> 0%Z).
Proof.
  intros Hz Hm output_file cmd r after outcome.
  assert (E : outcome =
    if negb (returncode r =? 0)%Z then
      Raise (CalledProcessError (returncode r) cmd (stdout r)
               (L "Zig compilation failed:" ++ [nl]
                ++ match stderr r with [] => stdout r | _ => stderr r end))
    else if negb (fs_exists after output_file) then
      Raise (FileNotFoundError
               (L "Compilation completed but output file not found: "
                ++ path_str h output_file))
    else Ok output_file).
  { unfold outcome, compile_zig. rewrite Hz, Hm.
    fold output_file. fold cmd. fold r. fold after.
    destruct (negb (returncode r =? 0)%Z); [reflexivity|].
    destruct (negb (fs_exists after output_file)); reflexivity. }
  rewrite E. repeat split.
  - intros N. apply Z.eqb_neq in N. rewrite N. reflexivity.
  - intros Z0 X. rewrite Z0, X. reflexivity.
  - intros Z0 X. rewrite Z0, X. reflexivity.
  - intros (rc & c & o & e & R) Z0. rewrite Z0 in R. simpl in R.
    destruct (negb (fs_exists after output_file)); discriminate.
Qed.

Lemma compile_zig_outcome_witness :
  snd (compile_zig demo_host (disk demo_host) [ L "proj"; L "src" ]
         [ L "tmp"; L "build"; L "demo" ] (L "demo") true true)
  = Ok demo_lib.
Proof.
  destruct (compile_zig_outcome demo_host (disk demo_host)
              [ L "proj"; L "src" ] [ L "tmp"; L "build"; L "demo" ]
              (L "demo") (zig := L "/usr/bin/zig")
              (main_file := [ L "proj"; L "src"; L "lib.zig" ]) true true
              eq_refl eq_refl) as (_ & _ & H & _).
  apply H; reflexivity.
Defined.

(** ** Parameters *)

Lemma parse_param_no_colon (param : str) :
  contains ":"%char (strip param) = false -> parse_param param = [].
Proof.
  intros H. unfold parse_param. rewrite H.
  destruct (str_eqb (strip param) [] || str_eqb (strip param) (L "..."));
    [reflexivity|].
  destruct (startswith (strip param) (L "comptime")); reflexivity.
Qed.

Lemma flat_map_nil {A B} (f : A -> list B) (l : list A) :
  (forall x, In x l -> f x = []) -> flat_map f l = [].
Proof.
  induction l as [|x l IH]; intros H; simpl; [reflexivity|].
  rewrite (H x (or_introl eq_refl)), IH; [reflexivity|].
  intros y I; apply H; right; exact I.
Qed.

(** C10. The scanner records one function per match of the pattern.  A
    parameter text with no colon adds nothing to the parameters, and a
    match whose parameter texts all lack a colon is recorded with an
    empty parameter list. *)
Theorem colonless_parameters_omitted (zig_source : str) :
  length (parse_zig_exports zig_source)
  = length (finditer export_pattern zig_source)
  /\ (forall param,
        contains ":"%char (strip param) = false -> parse_param param = [])
  /\ (forall m,
        In m (finditer export_pattern zig_source) ->
        (forall param,
           In param (split ","%char (strip (group (caps m) Gparams))) ->
           contains ":"%char (strip param) = false) ->
        In (function_of_match m) (parse_zig_exports zig_source)
        /\ name (function_of_match m) = group (caps m) Gname
        /\ params (function_of_match m) = []).
Proof.
  split; [apply length_map|]. split; [apply parse_param_no_colon|].
  intros m I H. split; [apply in_map; exact I|]. split; [reflexivity|].
  unfold function_of_match; simpl. unfold parse_params.
  destruct (strip (group (caps m) Gparams)) eqn:E; [reflexivity|].
  apply flat_map_nil. intros param Ip. apply parse_param_no_colon, H, Ip.
Qed.

Lemma colonless_parameters_omitted_witness :
  let zig_source := L "export fn f(i32, ..., *u8) void {" in
  let m := hd (MState [] []) (finditer export_pattern zig_source) in
  In (function_of_match m) (parse_zig_exports zig_source)
  /\ name (function_of_match m) = group (caps m) Gname
  /\ params (function_of_match m) = [].
Proof.
  intros zig_source m.
  apply (proj2 (proj2 (colonless_parameters_omitted zig_source))).
  - vm_compute. left; reflexivity.
  - intros param I. vm_compute in I.
    destruct I as [<-|[<-|[<-|[]]]]; reflexivity.
Defined.

(** ** Metadata text *)

Lemma author_line_named (a : author) :
  named a = true -> author_line a = [ author_text a ].
Proof.
  destruct a as [d|s]; [|discriminate].
  unfold named, author_line, author_text.
  destruct (dict_get d (L "name")) as [[|c n]|]; try discriminate.
  intros _.
  destruct (dict_get d (L "email")) as [[|c' e]|]; reflexivity.
Qed.

Lemma author_line_unnamed (a : author) :
  named a = false -> author_line a = [].
Proof.
  destruct a as [d|s]; [|reflexivity].
  unfold named, author_line.
  destruct (dict_get d (L "name")) as [[|c n]|]; try discriminate;
    reflexivity.
Qed.

Lemma author_lines_named (authors : list author) :
  flat_map author_line authors = map author_text (filter named authors).
Proof.
  induction authors as [|a authors IH]; [reflexivity|].
  cbn [flat_map filter]. destruct (named a) eqn:N.
  - rewrite (author_line_named a N), IH. reflexivity.
  - rewrite (author_line_unnamed a N), IH. reflexivity.
Qed.

(** C8, as the code has it: the metadata lines are the three fixed
    lines, the lines of the optional fields that are present and
    non-empty, then one line for every author entry that is a table with
    a non-empty name and none for any other author entry, one line per
    classifier, per dependency and per project URL, each group in the
    order of the input. *)
Theorem meta_lines_shape (m : metadata) :
  meta_lines m
  = [ L "Metadata-Version: 2.1";
      L "Name: " ++ md_name m;
      L "Version: " ++ md_version m ]
    ++ field_line (L "Summary: ") (md_description m)
    ++ field_line (L "Requires-Python: ") (md_requires_python m)
    ++ match md_license m with Some l => license_line l | None => [] end
    ++ map author_text (filter named (get_or (md_authors m) []))
    ++ map (fun classifier => L "Classifier: " ++ classifier)
         (get_or (md_classifiers m) [])
    ++ map (fun dep => L "Requires-Dist: " ++ dep)
         (get_or (md_dependencies m) [])
    ++ map (fun '(url_name, url_value) =>
              L "Project-URL: " ++ url_name ++ L ", " ++ url_value)
         (get_or (md_urls m) []).
Proof.
  unfold meta_lines, field_line. rewrite author_lines_named. reflexivity.
Qed.

(** C8, as the claim has it, fails: an author entry that gives only an
    e-mail address gets no line. *)
Lemma email_only_author_counterexample :
  let m := mkMetadata (L "demo") (L "1.0") None None None
             (Some [ AuthorTable [ (L "email", L "ann@example.org") ] ])
             None None None in
  length (get_or (md_authors m) []) = 1
  /\ meta_lines m
     = [ L "Metadata-Version: 2.1"; L "Name: demo"; L "Version: 1.0" ].
Proof. split; reflexivity. Qed.

(** ** The staging directory *)

Lemma is_below_app (root : path) (c : str) (rest : path) :
  is_below root (root ++ c :: rest) = true.
Proof.
  induction root as [|r root IH]; simpl; [reflexivity|].
  rewrite str_eqb_refl; exact IH.
Qed.

Lemma is_below_irrefl (root : path) : is_below root root = false.
Proof.
  induction root as [|r root IH]; simpl; [reflexivity|].
  rewrite str_eqb_refl; exact IH.
Qed.

Lemma is_below_inv (root p : path) :
  is_below root p = true -> exists c rest, p = root ++ c :: rest.
Proof.
  revert p; induction root as [|r root IH]; intros [|c p] H;
    try discriminate.
  - exists c, p. reflexivity.
  - simpl in H. apply andb_true_iff in H as [E H].
    apply str_eqb_spec in E; subst c.
    destruct (IH p H) as (c & rest & ->). exists c, rest. reflexivity.
Qed.

Lemma outside_spec (root p : path) :
  outside root p = true <->
  p <> root /\ forall c rest, p <> root ++ c :: rest.
Proof.
  unfold outside. split.
  - intros H. apply andb_true_iff in H as [B E].
    apply negb_true_iff in B. split.
    + intros ->.
      destruct (list_eq_dec (list_eq_dec ascii_dec) root root);
        [discriminate|congruence].
    + intros c rest ->. rewrite is_below_app in B. discriminate.
  - intros [N B]. apply andb_true_iff. split.
    + apply negb_true_iff. destruct (is_below root p) eqn:X; [|reflexivity].
      apply is_below_inv in X as (c & rest & ->). destruct (B c rest eq_refl).
    + destruct (list_eq_dec (list_eq_dec ascii_dec) p root);
        [congruence|reflexivity].
Qed.

Lemma fresh_find (t : fs) (root rest : path) :
  fresh t root = true -> fs_find t (root ++ rest) = None.
Proof.
  induction t as [|[p n] t IH]; simpl; [reflexivity|].
  intros H. apply andb_true_iff in H as [H Ht].
  apply andb_true_iff in H as [Hb He].
  destruct (list_eq_dec (list_eq_dec ascii_dec) (root ++ rest) p) as [E|_];
    [|apply IH, Ht].
  subst p. destruct rest as [|c rest].
  - rewrite app_nil_r in He.
    destruct (list_eq_dec (list_eq_dec ascii_dec) root root);
      [discriminate|congruence].
  - rewrite is_below_app in Hb. discriminate.
Qed.

Lemma fs_find_app (t x : fs) (p : path) :
  fs_find (t ++ x) p
  = match fs_find t p with Some n => Some n | None => fs_find x p end.
Proof.
  induction t as [|[q n] t IH]; simpl; [reflexivity|].
  destruct (list_eq_dec (list_eq_dec ascii_dec) p q); [reflexivity|exact IH].
Qed.

Lemma fs_write_fresh (t x : fs) (root rest : path) (n : node) :
  fresh t root = true ->
  fs_write (t ++ x) (root ++ rest) n = t ++ fs_write x (root ++ rest) n.
Proof.
  induction t as [|[p m] t IH]; simpl; [reflexivity|].
  intros H. assert (F := fresh_find ((p, m) :: t) root rest H).
  simpl in F. apply andb_true_iff in H as [_ Ht].
  destruct (list_eq_dec (list_eq_dec ascii_dec) (root ++ rest) p);
    [discriminate|].
  rewrite IH by exact Ht. reflexivity.
Qed.

Lemma below_fresh (t x : fs) (root : path) :
  fresh t root = true ->
  filter (fun '(p, _) => is_below root p) (t ++ x)
  = filter (fun '(p, _) => is_below root p) x.
Proof.
  rewrite filter_app. intros H.
  replace (filter (fun '(p, _) => is_below root p) t) with (@nil (path * node));
    [reflexivity|].
  induction t as [|[p n] t IH]; simpl; [reflexivity|].
  simpl in H. apply andb_true_iff in H as [H Ht].
  apply andb_true_iff in H as [Hb _]. apply negb_true_iff in Hb.
  rewrite Hb. apply IH, Ht.
Qed.

Lemma fs_write_here (x : fs) (p : path) (n m : node) :
  fs_write ((p, m) :: x) p n = (p, n) :: x.
Proof.
  simpl. destruct (list_eq_dec (list_eq_dec ascii_dec) p p); congruence.
Qed.

Lemma fs_write_next (x : fs) (p q : path) (n m : node) :
  p <> q -> fs_write ((q, m) :: x) p n = (q, m) :: fs_write x p n.
Proof.
  intros N. simpl.
  destruct (list_eq_dec (list_eq_dec ascii_dec) p q); congruence.
Qed.

Lemma fs_find_here (x : fs) (p : path) (n : node) :
  fs_find ((p, n) :: x) p = Some n.
Proof.
  simpl. destruct (list_eq_dec (list_eq_dec ascii_dec) p p); congruence.
Qed.

Lemma fs_find_next (x : fs) (p q : path) (n : node) :
  p <> q -> fs_find ((q, n) :: x) p = fs_find x p.
Proof.
  intros N. simpl.
  destruct (list_eq_dec (list_eq_dec ascii_dec) p q); congruence.
Qed.

Lemma last_app_cons {A} (a : list A) (x : A) (b : list A) (d : A) :
  last (a ++ x :: b) d = last (x :: b) d.
Proof.
  induction a as [|y a IH]; [reflexivity|].
  simpl app. rewrite <- IH. simpl. destruct (a ++ x :: b) eqn:E; [|reflexivity].
  destruct a; discriminate.
Qed.

(** The redirect file and the metadata directory have different names. *)
Lemma pth_not_dist_info (module_name : str) (m : metadata) :
  module_name ++ L ".pth" <> dist_info_name_of m.
Proof.
  unfold dist_info_name_of. intros E.
  apply (f_equal (fun s => last s " "%char)) in E.
  rewrite !app_assoc in E.
  change (L ".pth") with ([ "."%char; "p"%char; "t"%char] ++ [ "h"%char ]) in E.
  change (L ".dist-info") with (L ".dist-inf" ++ [ "o"%char ]) in E.
  rewrite !app_assoc, !last_last in E. discriminate.
Qed.

Ltac path_neq :=
  let E := fresh "E" in
  intro E;
  first
    [ apply (f_equal (@length str)) in E;
      rewrite ?length_app in E; simpl in E; lia
    | apply app_inv_head in E; injection E; clear E; intros;
      first [ discriminate | congruence ] ].

Lemma fs_write_fresh_root (t x : fs) (root : path) (n : node) :
  fresh t root = true -> fs_write (t ++ x) root n = t ++ fs_write x root n.
Proof.
  intros F. rewrite <- (app_nil_r root). apply fs_write_fresh, F.
Qed.

Lemma relative_to_app (base rest : path) : relative_to base (base ++ rest) = rest.
Proof.
  unfold relative_to. induction base as [|b base IH]; [reflexivity|exact IH].
Qed.

Lemma pth_not_record (module_name : str) :
  str_eqb (path_name [ module_name ++ L ".pth" ]) (L "RECORD") = false.
Proof.
  apply str_eqb_neq. unfold path_name. cbn [last]. intros E.
  apply (f_equal (fun s => last s " "%char)) in E.
  change (L ".pth") with ([ "."%char; "p"%char; "t"%char] ++ [ "h"%char ]) in E.
  rewrite app_assoc, last_last in E. discriminate.
Qed.

Lemma path_name_app (T : path) (x : str) (rest : path) :
  path_name (T ++ x :: rest) = path_name (x :: rest).
Proof. apply last_app_cons. Qed.

(** ** Making directories *)

Lemma inits_snoc (p : path) (c : str) :
  inits (p ++ [c]) = inits p ++ [ p ++ [c] ].
Proof.
  induction p as [|x p IH]; [reflexivity|].
  cbn [app inits]. rewrite IH, map_app. reflexivity.
Qed.

Lemma ancestors_snoc (p : path) (c : str) : ancestors (p ++ [c]) = inits p.
Proof. unfold ancestors. rewrite inits_snoc. apply removelast_last. Qed.

Lemma inits_ancestors (p : path) : inits p = ancestors p ++ match p with [] => [] | _ => [p] end.
Proof.
  destruct p as [|c p] using rev_ind; [reflexivity|].
  rewrite ancestors_snoc, inits_snoc. destruct (p ++ [c]) eqn:E; [|reflexivity].
  destruct p; discriminate.
Qed.

(** Every path of [inits v] is [v] or a path above it. *)
Lemma inits_prefix (v q : path) :
  In q (inits v) -> q = v \/ exists c rest, v = q ++ c :: rest.
Proof.
  revert q; induction v as [|x v IH]; intros q I; [destruct I|].
  cbn [inits] in I. destruct I as [<- | I].
  - destruct v as [|c rest]; [left; reflexivity|].
    right. exists c, rest. reflexivity.
  - apply in_map_iff in I as (q' & <- & I).
    destruct (IH q' I) as [-> | (c & rest & ->)]; [left; reflexivity|].
    right. exists c, rest. reflexivity.
Qed.

Lemma inits_outside (root v q : path) :
  outside root v = true -> In q (inits v) -> outside root q = true.
Proof.
  intros O I. apply outside_spec in O as [N B]. apply outside_spec.
  destruct (inits_prefix v q I) as [-> | (c & rest & ->)]; [auto|].
  split.
  - intros ->. apply (B c rest eq_refl).
  - intros c' rest' ->. apply (B c' (rest' ++ c :: rest)).
    rewrite <- app_assoc. reflexivity.
Qed.

Lemma mkdir_steps_exist (t : fs) (l : list path) :
  forallb (fs_exists t) l = true -> fold_left mkdir_step l t = t.
Proof.
  induction l as [|q l IH]; [reflexivity|].
  simpl. intros H. apply andb_true_iff in H as [X F].
  unfold mkdir_step at 2. rewrite X. apply IH, F.
Qed.

(** A directory whose ancestors are there and whose place is free is
    made by one write. *)
Lemma mkdir_new (h : host) (exist_ok : bool) (t : fs) (p : path) (c : str) :
  forallb (is_dir t) (inits p) = true ->
  fs_find t (p ++ [c]) = None ->
  mkdir h exist_ok t (p ++ [c]) = Ok (fs_write t (p ++ [c]) Dir).
Proof.
  intros D N. unfold mkdir, fs_mkdir. rewrite ancestors_snoc. rewrite N.
  assert (X : existsb (is_file t) (inits p) = false).
  { apply not_true_is_false. intros X.
    apply existsb_exists in X as (q & I & Fq).
    rewrite forallb_forall in D. specialize (D q I).
    unfold is_dir in D. unfold is_file in Fq.
    destruct (fs_find t q) as [[|]|]; discriminate. }
  rewrite X. f_equal. rewrite inits_snoc, fold_left_app.
  rewrite (@mkdir_steps_exist t (inits p)).
  - cbn [fold_left]. unfold mkdir_step, fs_exists. rewrite N. reflexivity.
  - apply forallb_forall. intros q I. rewrite forallb_forall in D.
    specialize (D q I). unfold is_dir in D. unfold fs_exists.
    destruct (fs_find t q) as [[|]|]; try discriminate; reflexivity.
Qed.

(** Without [exist_ok], a directory that is there is an error. *)
Lemma mkdir_again (h : host) (t : fs) (p : path) (c : str) :
  forallb (is_dir t) (inits p) = true ->
  fs_find t (p ++ [c]) = Some Dir ->
  mkdir h false t (p ++ [c]) = Raise (FileExistsError (path_str h (p ++ [c]))).
Proof.
  intros D N. unfold mkdir, fs_mkdir. rewrite ancestors_snoc. rewrite N.
  assert (X : existsb (is_file t) (inits p) = false).
  { apply not_true_is_false. intros X.
    apply existsb_exists in X as (q & I & Fq).
    rewrite forallb_forall in D. specialize (D q I).
    unfold is_dir in D. unfold is_file in Fq.
    destruct (fs_find t q) as [[|]|]; discriminate. }
  rewrite X. reflexivity.
Qed.

(** ** Changes outside a directory *)

Lemma fs_find_write_same (t : fs) (p : path) (n : node) :
  fs_find (fs_write t p n) p = Some n.
Proof.
  induction t as [|[q m] t IH]; simpl.
  - destruct (list_eq_dec (list_eq_dec ascii_dec) p p); congruence.
  - destruct (list_eq_dec (list_eq_dec ascii_dec) p q) as [E|E]; simpl.
    + destruct (list_eq_dec (list_eq_dec ascii_dec) p p); congruence.
    + destruct (list_eq_dec (list_eq_dec ascii_dec) p q); [congruence|].
      exact IH.
Qed.

Lemma fs_find_write_other (t : fs) (p q : path) (n : node) :
  p <> q -> fs_find (fs_write t q n) p = fs_find t p.
Proof.
  intros N. induction t as [|[r m] t IH]; simpl.
  - destruct (list_eq_dec (list_eq_dec ascii_dec) p q); congruence.
  - destruct (list_eq_dec (list_eq_dec ascii_dec) q r) as [E|E]; simpl.
    + subst r.
      destruct (list_eq_dec (list_eq_dec ascii_dec) p q); congruence.
    + destruct (list_eq_dec (list_eq_dec ascii_dec) p r); [reflexivity|].
      exact IH.
Qed.

Lemma fs_find_in (t : fs) (p : path) (n : node) :
  fs_find t p = Some n -> In (p, n) t.
Proof.
  induction t as [|[q m] t IH]; simpl; [discriminate|].
  destruct (list_eq_dec (list_eq_dec ascii_dec) p q) as [E|E].
  - intros X. injection X as ->. subst q. left; reflexivity.
  - intros X. right. apply IH, X.
Qed.

(** Writing outside a directory changes nothing below it. *)
Lemma below_write_outside (t : fs) (root q : path) (n : node) :
  is_below root q = false ->
  filter (fun '(p, _) => is_below root p) (fs_write t q n)
  = filter (fun '(p, _) => is_below root p) t.
Proof.
  intros B. induction t as [|[r m] t IH]; simpl.
  - rewrite B. reflexivity.
  - destruct (list_eq_dec (list_eq_dec ascii_dec) q r) as [<-|E]; simpl.
    + rewrite B. reflexivity.
    + rewrite IH. reflexivity.
Qed.

Lemma mkdir_steps_find (t : fs) (l : list path) (q : path) :
  ~ In q l -> fs_find (fold_left mkdir_step l t) q = fs_find t q.
Proof.
  revert t; induction l as [|r l IH]; intros t N; [reflexivity|].
  cbn [fold_left]. rewrite IH by (intros I; apply N; right; exact I).
  unfold mkdir_step. destruct (fs_exists t r); [reflexivity|].
  apply fs_find_write_other. intros ->. apply N. left; reflexivity.
Qed.

Lemma mkdir_steps_below (t : fs) (root : path) (l : list path) :
  (forall q, In q l -> is_below root q = false) ->
  filter (fun '(p, _) => is_below root p) (fold_left mkdir_step l t)
  = filter (fun '(p, _) => is_below root p) t.
Proof.
  revert t; induction l as [|r l IH]; intros t B; [reflexivity|].
  cbn [fold_left]. rewrite IH by (intros q I; apply B; right; exact I).
  unfold mkdir_step. destruct (fs_exists t r); [reflexivity|].
  apply below_write_outside, B. left; reflexivity.
Qed.

Lemma in_ancestors (p q : path) : In q (ancestors p) -> In q (inits p).
Proof.
  intros I. rewrite inits_ancestors. apply in_or_app. left. exact I.
Qed.

Lemma inits_length (v q : path) : In q (inits v) -> length q <= length v.
Proof.
  intros I. destruct (inits_prefix v q I) as [-> | (c & rest & ->)]; [lia|].
  rewrite length_app. lia.
Qed.

Lemma existsb_agree {A} (f g : A -> bool) (l : list A) :
  (forall x, In x l -> f x = g x) -> existsb f l = existsb g l.
Proof.
  induction l as [|x l IH]; intros H; [reflexivity|].
  simpl. rewrite (H x (or_introl eq_refl)), IH; [reflexivity|].
  intros y I. apply H. right; exact I.
Qed.

(** What [mkdir] does depends only on the directory and the paths above
    it, and it changes no other path. *)
Lemma mkdir_agree (h : host) (e : bool) (t t' : fs) (w : path) :
  (forall q, q = w \/ In q (inits w) -> fs_find t' q = fs_find t q) ->
  match mkdir h e t w, mkdir h e t' w with
  | Ok _, Ok _ => True
  | Raise a, Raise b => a = b
  | _, _ => False
  end.
Proof.
  intros A. unfold mkdir, fs_mkdir.
  rewrite (existsb_agree (is_file t') (is_file t) (ancestors w)).
  - rewrite (A w (or_introl eq_refl)).
    destruct (existsb (is_file t) (ancestors w)); [reflexivity|].
    destruct (fs_find t w) as [[c|]|]; try reflexivity; try exact I.
    destruct e; [exact I | reflexivity].
  - intros q I. unfold is_file. rewrite A; [reflexivity|].
    right. apply in_ancestors, I.
Qed.

Lemma mkdir_find_other (h : host) (e : bool) (t r : fs) (w q : path) :
  mkdir h e t w = Ok r -> ~ In q (inits w) -> fs_find r q = fs_find t q.
Proof.
  unfold mkdir, fs_mkdir. intros M N.
  destruct (existsb (is_file t) (ancestors w)); [discriminate|].
  destruct (fs_find t w) as [[c|]|]; try discriminate.
  - destruct e; [|discriminate]. injection M as <-. reflexivity.
  - injection M as <-. apply mkdir_steps_find, N.
Qed.

Lemma mkdir_below (h : host) (e : bool) (t r : fs) (root w : path) :
  mkdir h e t w = Ok r ->
  (forall q, In q (inits w) -> is_below root q = false) ->
  filter (fun '(p, _) => is_below root p) r
  = filter (fun '(p, _) => is_below root p) t.
Proof.
  unfold mkdir, fs_mkdir. intros M B.
  destruct (existsb (is_file t) (ancestors w)); [discriminate|].
  destruct (fs_find t w) as [[c|]|]; try discriminate.
  - destruct e; [|discriminate]. injection M as <-. reflexivity.
  - injection M as <-. apply mkdir_steps_below, B.
Qed.

Lemma outside_parent (root w : path) (n : str) :
  outside root (w ++ [n]) = true -> outside root w = true.
Proof.
  intros O. apply outside_spec in O as [N B]. apply outside_spec. split.
  - intros ->. apply (B n [] eq_refl).
  - intros c rest ->. apply (B c (rest ++ [n])).
    rewrite <- app_assoc. reflexivity.
Qed.

Lemma outside_below (root q : path) :
  outside root q = true -> is_below root q = false.
Proof.
  unfold outside. intros O. apply andb_true_iff in O as [O _].
  apply negb_true_iff, O.
Qed.

(** Opening the archive outside the staging directory sees the disk as it
    was before staging, and leaves the staging directory alone. *)
Lemma open_archive_staged (h : host) (t t' : fs) (root w : path) (n : str) :
  outside root (w ++ [n]) = true ->
  (forall q, outside root q = true -> fs_find t' q = fs_find t q) ->
  match open_archive h t w n with
  | Raise e => open_archive h t' w n = Raise e
  | Ok _ =>
      exists r', open_archive h t' w n = Ok r'
        /\ filter (fun '(p, _) => is_below root p) r'
           = filter (fun '(p, _) => is_below root p) t'
  end.
Proof.
  intros O A. unfold open_archive, pdiv.
  assert (Ow := @outside_parent root w n O).
  assert (Oi : forall q, In q (inits w) -> outside root q = true).
  { intros q I. apply inits_outside with (w ++ [n]); [exact O|].
    rewrite inits_snoc. apply in_or_app. left. exact I. }
  assert (Nw : ~ In (w ++ [n]) (inits w)).
  { intros I. apply inits_length in I. rewrite length_app in I. simpl in I.
    lia. }
  assert (M := @mkdir_agree h true t t' w).
  destruct (mkdir h true t w) as [r|e] eqn:Mt;
    destruct (mkdir h true t' w) as [r'|e'] eqn:Mt'; cbn [bind].
  - rewrite (@mkdir_find_other h true t r w (w ++ [n]) Mt Nw).
    rewrite (@mkdir_find_other h true t' r' w (w ++ [n]) Mt' Nw), (A _ O).
    destruct (fs_find t (w ++ [n])) as [[c|]|]; try reflexivity.
    + exists r'. split; [reflexivity|].
      apply (@mkdir_below h true t' r' root w Mt').
      intros q I. apply outside_below, Oi, I.
    + exists r'. split; [reflexivity|].
      apply (@mkdir_below h true t' r' root w Mt').
      intros q I. apply outside_below, Oi, I.
  - exfalso. apply M. intros q [-> | I]; apply A; auto.
  - exfalso. apply M. intros q [-> | I]; apply A; auto.
  - f_equal. symmetry. apply M. intros q [-> | I]; apply A; auto.
Qed.

(** ** Staging an editable build *)

Lemma fs_find_staged (t x : fs) (T rest : path) :
  fresh t T = true -> fs_find (t ++ x) (T ++ rest) = fs_find x (T ++ rest).
Proof.
  intros F. rewrite fs_find_app, (@fresh_find t T rest F). reflexivity.
Qed.

Lemma temp_dir_fresh (t : fs) (T : path) :
  temp_dir_for t T = true -> fresh t T = true.
Proof. unfold temp_dir_for. intros H. apply andb_true_iff in H as [F _]. exact F. Qed.

Lemma staging_dirs (t x : fs) (T : path) :
  temp_dir_for t T = true ->
  forallb (is_dir (t ++ (T, Dir) :: x)) (inits T) = true.
Proof.
  unfold temp_dir_for. intros H. apply andb_true_iff in H as [F A].
  rewrite inits_ancestors, forallb_app. apply andb_true_iff. split.
  - apply forallb_forall. intros q I. rewrite forallb_forall in A.
    specialize (A q I). unfold is_dir in *. rewrite fs_find_app.
    destruct (fs_find t q) as [[c|]|]; try discriminate. reflexivity.
  - destruct T as [|c T]; [reflexivity|]. cbn [forallb]. unfold is_dir.
    rewrite <- (app_nil_r (c :: T)) at 2.
    rewrite (@fs_find_staged t _ (c :: T) [] F), app_nil_r, fs_find_here.
    reflexivity.
Qed.

Lemma mkdir_staged (h : host) (e : bool) (t x : fs) (T : path) (c : str) :
  temp_dir_for t T = true ->
  fs_find ((T, Dir) :: x) (T ++ [c]) = None ->
  mkdir h e (t ++ (T, Dir) :: x) (T ++ [c])
  = Ok (t ++ fs_write ((T, Dir) :: x) (T ++ [c]) Dir).
Proof.
  intros H N. assert (F := temp_dir_fresh _ _ H).
  rewrite mkdir_new.
  - rewrite (@fs_write_fresh t _ T [c] Dir F). reflexivity.
  - apply staging_dirs, H.
  - rewrite (@fs_find_staged t _ T [c] F). exact N.
Qed.

Lemma mkdir_staged_again (h : host) (t x : fs) (T : path) (c : str) :
  temp_dir_for t T = true ->
  fs_find ((T, Dir) :: x) (T ++ [c]) = Some Dir ->
  mkdir h false (t ++ (T, Dir) :: x) (T ++ [c])
  = Raise (FileExistsError (path_str h (T ++ [c]))).
Proof.
  intros H N. assert (F := temp_dir_fresh _ _ H).
  apply mkdir_again.
  - apply staging_dirs, H.
  - rewrite (@fs_find_staged t _ T [c] F). exact N.
Qed.

Lemma write_text_staged (h : host) (t x : fs) (T rest : path) (content : str) :
  fresh t T = true -> fs_find x (T ++ rest) = None ->
  write_text h (t ++ x) (T ++ rest) content
  = Ok (t ++ fs_write x (T ++ rest) (File (text_bytes h content))).
Proof.
  intros F N. unfold write_text.
  rewrite (@fs_find_staged t x T rest F), N.
  rewrite (@fs_write_fresh t x T rest _ F). reflexivity.
Qed.

Lemma fs_find_absent (x : fs) (q : path) :
  (forall p n, In (p, n) x -> p <> q) -> fs_find x q = None.
Proof.
  induction x as [|[p n] x IH]; intros H; [reflexivity|].
  rewrite fs_find_next.
  - apply IH. intros p' n' I. apply (H p' n'). right; exact I.
  - intros ->. apply (H p n); [left|]; reflexivity.
Qed.

(** Outside the staging directory the disk is as it was. *)
Lemma staged_outside (t x : fs) (T q : path) :
  (forall p n, In (p, n) x -> outside T p = false) ->
  outside T q = true -> fs_find (t ++ x) q = fs_find t q.
Proof.
  intros H O. rewrite fs_find_app.
  destruct (fs_find t q); [reflexivity|].
  apply fs_find_absent. intros p n I ->. rewrite (H q n I) in O. discriminate.
Qed.

Lemma outside_root (T : path) : outside T T = false.
Proof.
  unfold outside.
  destruct (list_eq_dec (list_eq_dec ascii_dec) T T); [|congruence].
  apply andb_false_r.
Qed.

Lemma outside_inside (T : path) (c : str) (rest : path) :
  outside T (T ++ c :: rest) = false.
Proof. unfold outside. rewrite is_below_app. reflexivity. Qed.

(** ** An editable build *)

Lemma record_lines_listed (h : host) (T : path) (l : fs) :
  (forall p c, In (p, File c) l -> path_name p <> L "RECORD") ->
  flat_map (record_line h T) l
  = map (fun '(p, c) => manifest_line h (relative_to T p) c)
      (flat_map (fun '(p, n) => match n with
                                | File c => [(p, c)]
                                | Dir => []
                                end) l).
Proof.
  induction l as [|[p [c|]] l IH]; intros H; [reflexivity| |].
  - cbn [flat_map map app record_line].
    assert (N : str_eqb (path_name p) (L "RECORD") = false).
    { apply str_eqb_neq. apply (H p c). left; reflexivity. }
    rewrite N. cbn [negb app]. rewrite IH; [reflexivity|].
    intros q d I. apply (H q d). right; exact I.
  - cbn [flat_map map app record_line]. apply IH.
    intros q d I. apply (H q d). right; exact I.
Qed.

(** C9, as the code has it.  An editable build in a new staging
    directory, for a module, a metadata directory and a wheel whose names
    are file names, calls neither the compiler driver nor the scanner.
    When the module is named like the metadata directory, making that
    directory raises [FileExistsError] and no package is made.  Otherwise
    the build gets as far as opening the archive, which succeeds or fails
    as it would on the disk before staging, and the package holds the
    redirect file, whose content is the path of the project, the three
    metadata files and the manifest of these four, in the order of the
    listing, and nothing else: no library and no generated module. *)
Theorem editable_build (h : host) (project_dir wheel_dir : path)
    (m : metadata) (cfg : zigx_config) (temp_path : path) :
  reorders (dir_order h) ->
  forallb file_name [ module_name_of m cfg; dist_info_name_of m;
                      wheel_name_of h m ] = true ->
  temp_dir_for (disk h) temp_path = true ->
  outside temp_path (pdiv wheel_dir (wheel_name_of h m)) = true ->
  let module_name := module_name_of m cfg in
  let dist_info := dist_info_name_of m in
  let texts := create_wheel_metadata m (get_python_tag h) (get_abi_tag h)
                 (get_platform_tag h) in
  let files :=
    [ ([ module_name ++ L ".pth" ], text_bytes h (path_str h project_dir));
      ([ dist_info; L "METADATA" ], text_bytes h (fst texts));
      ([ dist_info; L "WHEEL" ], text_bytes h (snd texts));
      ([ dist_info; L "top_level.txt" ], text_bytes h module_name) ] in
  let outcome :=
    build_wheel_impl h project_dir wheel_dir m cfg true temp_path in
  fst outcome = []
  /\ (module_name = dist_info ->
      snd outcome
      = Raise (FileExistsError (path_str h (pdiv temp_path dist_info))))
  /\ (module_name <> dist_info ->
      exists b listed,
        snd outcome
        = (t <- open_archive h (disk h) wheel_dir (wheel_name_of h m) ;; Ok b)
        /\ Permutation listed files
        /\ Permutation (members b)
             (map (fun '(rel_path, content) => (arc_name h rel_path, content))
                (files
                 ++ [ ([ dist_info; L "RECORD" ],
                       text_bytes h
                         (join [nl]
                            (map (fun '(rel_path, content) =>
                                    manifest_line h rel_path content) listed
                             ++ [ L "RECORD,," ]))) ]))).
Proof.
  intros Hl _ Ht Hw module_name dist_info texts files outcome.
  assert (F := temp_dir_fresh _ _ Ht).
  subst module_name dist_info.
  set (T := temp_path) in *. set (t := disk h) in *.
  set (a := module_name_of m cfg) in *. set (di := dist_info_name_of m) in *.
  set (p := a ++ L ".pth").
  assert (Hpa : p <> a).
  { intros E. apply (f_equal (@length ascii)) in E. unfold p in E.
    rewrite length_app in E. simpl in E. lia. }
  assert (Hpd : p <> di) by apply pth_not_dist_info.
  assert (E0 : fs_write t T Dir = t ++ [ (T, Dir) ]).
  { rewrite <- (app_nil_r t) at 1. apply (@fs_write_fresh_root t [] T Dir F). }
  assert (E1 : mkdir h false (fs_write t T Dir) (pdiv T a)
               = Ok (t ++ [ (T, Dir); (T ++ [a], Dir) ])).
  { rewrite E0. unfold pdiv. rewrite mkdir_staged; [|exact Ht|].
    - rewrite fs_write_next by path_neq. reflexivity.
    - rewrite fs_find_next by path_neq. reflexivity. }
  assert (E2 : write_text h (t ++ [ (T, Dir); (T ++ [a], Dir) ]) (pdiv T p)
                 (path_str h project_dir)
               = Ok (t ++ [ (T, Dir); (T ++ [a], Dir);
                            (T ++ [p], File (text_bytes h (path_str h project_dir))) ])).
  { unfold pdiv. rewrite write_text_staged; [|exact F|].
    - rewrite !fs_write_next by path_neq. reflexivity.
    - rewrite !fs_find_next by path_neq. reflexivity. }
  unfold outcome, build_wheel_impl, stage_package. fold a T t di.
  rewrite E1. fold p. rewrite E2. cbn [fst snd bind].
  split; [reflexivity|].
  set (c1 := text_bytes h (path_str h project_dir)) in *.
  split.
  { intros Ea. rewrite <- Ea. unfold pdiv.
    rewrite mkdir_staged_again; [reflexivity | exact Ht |].
    rewrite fs_find_next by path_neq. apply fs_find_here. }
  intros Hne.
  assert (E3 : mkdir h false
                 (t ++ [ (T, Dir); (T ++ [a], Dir); (T ++ [p], File c1) ])
                 (pdiv T di)
               = Ok (t ++ [ (T, Dir); (T ++ [a], Dir); (T ++ [p], File c1);
                            (T ++ [di], Dir) ])).
  { unfold pdiv. rewrite mkdir_staged; [|exact Ht|].
    - rewrite !fs_write_next by path_neq. reflexivity.
    - rewrite !fs_find_next by path_neq. reflexivity. }
  rewrite E3. cbn [bind].
  unfold texts, create_wheel_metadata in *. cbv iota. cbn [fst snd] in files.
  set (c2 := text_bytes h (join [nl] (meta_lines m))) in *.
  set (c3 := text_bytes h (join [nl] (wheel_lines (get_python_tag h)
                             (get_abi_tag h) (get_platform_tag h)))) in *.
  set (c4 := text_bytes h a) in *.
  unfold pdiv. rewrite <- !app_assoc. cbn [app].
  rewrite write_text_staged;
    [|exact F|rewrite !fs_find_next by path_neq; reflexivity].
  rewrite !fs_write_next by path_neq. cbn [fs_write bind]. fold c2.
  rewrite write_text_staged;
    [|exact F|rewrite !fs_find_next by path_neq; reflexivity].
  rewrite !fs_write_next by path_neq. cbn [fs_write bind]. fold c3.
  rewrite write_text_staged;
    [|exact F|rewrite !fs_find_next by path_neq; reflexivity].
  rewrite !fs_write_next by path_neq. cbn [fs_write bind]. fold c4.
  set (l6 := [ (T ++ [a], Dir); (T ++ [p], File c1); (T ++ [di], Dir);
                (T ++ [di; L "METADATA"], File c2);
                (T ++ [di; L "WHEEL"], File c3);
                (T ++ [di; L "top_level.txt"], File c4) ]).
  assert (B6 : forall x,
            filter (fun '(q, _) => is_below T q) (t ++ (T, Dir) :: l6 ++ x)
            = l6 ++ filter (fun '(q, _) => is_below T q) x).
  { intros x. rewrite (@below_fresh t _ T F). unfold l6.
    cbn [filter app]. rewrite is_below_irrefl, !is_below_app. reflexivity. }
  assert (R6 : create_wheel_record h (t ++ (T, Dir) :: l6) T
               = join [nl] (flat_map (record_line h T) (dir_order h l6)
                            ++ [ L "RECORD,," ])).
  { unfold create_wheel_record, create_wheel_record_lines, rglob.
    rewrite <- (app_nil_r l6) at 1. rewrite B6, app_nil_r. reflexivity. }
  change (t ++ [ (T, Dir); (T ++ [a], Dir); (T ++ [p], File c1);
                 (T ++ [di], Dir); (T ++ [di; L "METADATA"], File c2);
                 (T ++ [di; L "WHEEL"], File c3);
                 (T ++ [di; L "top_level.txt"], File c4) ])
    with (t ++ (T, Dir) :: l6).
  rewrite R6.
  set (filesof := fun '(q, n) => match n with
                                 | File c => [(q, c)]
                                 | Dir => @nil (path * bytes)
                                 end).
  set (listed := map (fun '(q, c) => (relative_to T q, c))
                   (flat_map filesof (dir_order h l6))).
  assert (NR : forall q c, In (q, File c) (dir_order h l6) ->
                 path_name q <> L "RECORD").
  { intros q c I. apply (Permutation_in _ (Hl l6)) in I. unfold l6 in I.
    cbn [In] in I.
    destruct I as [I|[I|[I|[I|[I|[I|[]]]]]]]; try discriminate;
      injection I as <- _; rewrite path_name_app.
    - apply str_eqb_neq, pth_not_record.
    - discriminate.
    - discriminate.
    - discriminate. }
  assert (RL : flat_map (record_line h T) (dir_order h l6)
               = map (fun '(rel_path, content) =>
                        manifest_line h rel_path content) listed).
  { rewrite (@record_lines_listed h T _ NR). unfold listed.
    rewrite map_map. apply map_ext. intros [q c]. reflexivity. }
  rewrite RL.
  set (c5 := text_bytes h
               (join [nl]
                  (map (fun '(rel_path, content) =>
                          manifest_line h rel_path content) listed
                   ++ [ L "RECORD,," ]))) in *.
  rewrite write_text_staged;
    [|exact F|unfold l6; rewrite !fs_find_next by path_neq; reflexivity].
  unfold l6 at 1. rewrite !fs_write_next by path_neq. cbn [fs_write bind].
  fold c5.
  set (l7 := l6 ++ [ (T ++ [di; L "RECORD"], File c5) ]).
  change (t ++ [ (T, Dir); (T ++ [a], Dir); (T ++ [p], File c1);
                 (T ++ [di], Dir); (T ++ [di; L "METADATA"], File c2);
                 (T ++ [di; L "WHEEL"], File c3);
                 (T ++ [di; L "top_level.txt"], File c4);
                 (T ++ [di; L "RECORD"], File c5) ])
    with (t ++ (T, Dir) :: l7).
  assert (B7 : filter (fun '(q, _) => is_below T q) (t ++ (T, Dir) :: l7) = l7).
  { unfold l7. rewrite B6. cbn [filter]. rewrite is_below_app. reflexivity. }
  exists {| wheel_name := wheel_name_of h m;
            staged := dir_order h l7;
            members := map (fun '(file_path, content) =>
                              (arc_name h (relative_to T file_path), content))
                         (flat_map filesof (dir_order h l7)) |}, listed.
  split; [|split].
  - assert (A := @open_archive_staged h t (t ++ (T, Dir) :: l7) T wheel_dir
                   (wheel_name_of h m) Hw).
    destruct (open_archive h t wheel_dir (wheel_name_of h m)) as [r|e].
    + destruct A as (r' & -> & Br).
      * intros q O. apply (@staged_outside t _ T q); [|exact O].
        intros q' n I. unfold l7, l6 in I. cbn [In app] in I.
        destruct I as [I|[I|[I|[I|[I|[I|[I|[I|[]]]]]]]]];
          injection I as <- _;
          first [apply outside_root | apply outside_inside].
      * cbn [bind]. unfold files_below, rglob. rewrite Br, B7. reflexivity.
    + rewrite A; [reflexivity|].
      intros q O. apply (@staged_outside t _ T q); [|exact O].
      intros q' n I. unfold l7, l6 in I. cbn [In app] in I.
      destruct I as [I|[I|[I|[I|[I|[I|[I|[I|[]]]]]]]]];
        injection I as <- _;
        first [apply outside_root | apply outside_inside].
  - unfold listed.
    apply Permutation_trans
      with (map (fun '(q, c) => (relative_to T q, c)) (flat_map filesof l6)).
    + apply Permutation_map, Permutation_flat_map, Hl.
    + unfold l6, files. cbn [flat_map filesof app map].
      rewrite !relative_to_app. apply Permutation_refl.
  - cbn [members].
    apply Permutation_trans
      with (map (fun '(file_path, content) =>
                   (arc_name h (relative_to T file_path), content))
              (flat_map filesof l7)).
    + apply Permutation_map, Permutation_flat_map, Hl.
    + unfold l7, l6, files. cbn [flat_map filesof app map].
      rewrite !relative_to_app. apply Permutation_refl.
Qed.

Lemma editable_build_witness :
  exists b,
    build_wheel_impl demo_host [ L "proj" ] [ L "dist" ] demo_metadata
      (mkConfig (L "src") None true true true []) true [ L "tmp"; L "build" ]
    = ([], Ok b)
    /\ In (L "my_ext.pth", L "/proj") (members b)
    /\ In (L "my-ext-1.2.0.dist-info/top_level.txt", L "my_ext") (members b)
    /\ Permutation (map fst (members b))
         [ L "my_ext.pth"; L "my-ext-1.2.0.dist-info/METADATA";
           L "my-ext-1.2.0.dist-info/WHEEL";
           L "my-ext-1.2.0.dist-info/top_level.txt";
           L "my-ext-1.2.0.dist-info/RECORD" ].
Proof.
  destruct (@editable_build demo_host [ L "proj" ] [ L "dist" ] demo_metadata
              (mkConfig (L "src") None true true true []) [ L "tmp"; L "build" ]
              (fun entries => Permutation_sym (Permutation_rev entries))
              eq_refl eq_refl eq_refl) as (E1 & _ & E3).
  destruct E3 as (b & listed & E & _ & P); [discriminate|].
  exists b. split; [|split; [|split]].
  - rewrite (surjective_pairing
               (build_wheel_impl demo_host [ L "proj" ] [ L "dist" ]
                  demo_metadata (mkConfig (L "src") None true true true [])
                  true [ L "tmp"; L "build" ])).
    rewrite E1, E. reflexivity.
  - apply (Permutation_in _ (Permutation_sym P)). left. reflexivity.
  - apply (Permutation_in _ (Permutation_sym P)).
    right; right; right; left. reflexivity.
  - apply (Permutation_trans (Permutation_map fst P)).
    apply Permutation_refl.
Defined.

(** C9, where it fails: a module named like the metadata directory.
    The package directory has the name when the metadata directory is to
    be made, and the build raises [FileExistsError]. *)
Lemma editable_name_clash_counterexample :
  build_wheel_impl demo_host [ L "proj" ] [ L "dist" ] demo_metadata
    {| cfg_src_dir := L "src";
       cfg_module_name := Some (L "my-ext-1.2.0.dist-info");
       cfg_release := true;
       cfg_strip := true;
       cfg_gil_release := true;
       cfg_features := [] |} true [ L "tmp"; L "build" ]
  = ([], Raise (FileExistsError (L "/tmp/build/my-ext-1.2.0.dist-info"))).
Proof. vm_compute. reflexivity. Qed.

(** C7, on the code: the manifest of the editable build of the sample
    project.  The archive holds the redirect file and four files of the
    metadata directory, the manifest [my-ext-1.2.0.dist-info/RECORD]
    among them.  The manifest has a line with digest and length for the
    four other files and ends with the line [RECORD,,]: it names a file
    [RECORD] that the archive does not hold, and it has no line for the
    manifest where the archive has it. *)
Theorem manifest_self_entry :
  exists b record lines,
    snd (build_editable demo_host [ L "proj" ] [ L "dist" ] demo_metadata
           demo_config [ L "tmp"; L "build" ]) = Ok b
    /\ In (L "my-ext-1.2.0.dist-info/RECORD", record) (members b)
    /\ Permutation (map fst (members b))
         [ L "demo.pth"; L "my-ext-1.2.0.dist-info/METADATA";
           L "my-ext-1.2.0.dist-info/WHEEL";
           L "my-ext-1.2.0.dist-info/top_level.txt";
           L "my-ext-1.2.0.dist-info/RECORD" ]
    /\ split nl record = lines ++ [ L "RECORD,," ]
    /\ Permutation lines
         [ L "demo.pth,sha256=eZA_DCACw1Kp8ENPoGVIDoD3ygoBaV3N7_4qK5egqaA,5";
           L "my-ext-1.2.0.dist-info/METADATA,sha256=vahFn_ArABGO9D2RVYWYeEQZG9i5LMp3wQDylfIpPWI,252";
           L "my-ext-1.2.0.dist-info/WHEEL,sha256=kacy7qa_lCQDsU95kKXNhZ_uaZnMivTDED4QrMX1f_c,95";
           L "my-ext-1.2.0.dist-info/top_level.txt,sha256=KpdRbDVLaISM29j1SiJqClWyHtE44getbFy7nACqWuo,4" ].
Proof.
  pose (b := match snd (build_editable demo_host [ L "proj" ] [ L "dist" ]
                          demo_metadata demo_config [ L "tmp"; L "build" ]) with
             | Ok b => b
             | Raise _ => mkBuilt [] [] []
             end).
  pose (record := match dict_get (members b)
                          (L "my-ext-1.2.0.dist-info/RECORD") with
                  | Some content => content
                  | None => []
                  end).
  exists b, record, (removelast (split nl record)).
  split; [vm_compute; reflexivity|].
  split; [vm_compute; left; reflexivity|].
  split; [vm_compute; apply Permutation_sym; refine (Permutation_rev _)|].
  split; [vm_compute; reflexivity|].
  vm_compute. apply Permutation_sym. refine (Permutation_rev _).
Qed.

(** ** The matcher and the matching relation *)

Lemma matches_suffix (r : regex) (st st' : mstate) :
  matches r st st' -> exists w, rest st = w ++ rest st'.
Proof.
  induction 1 as [st|p c t cs H|a b st1 st2 st3 _ [w1 E1] _ [w2 E2]
                  |a b st st' _ IH|a b st st' _ IH|g r st
                  |g r st1 st2 st3 _ [w1 E1] _ _ [w2 E2]|g r st st' _ [w E]].
  - exists []; reflexivity.
  - exists [c]; reflexivity.
  - exists (w1 ++ w2). rewrite E1, E2, app_assoc; reflexivity.
  - exact IH.
  - exact IH.
  - exists []; reflexivity.
  - exists (w1 ++ w2). rewrite E1, E2, app_assoc; reflexivity.
  - exists w; exact E.
Qed.

Lemma matches_length (r : regex) (st st' : mstate) :
  matches r st st' -> length (rest st') <= length (rest st).
Proof.
  intros H. destruct (matches_suffix H) as [w E].
  rewrite E, length_app. lia.
Qed.

Lemma consumed_app (w s : str) (cs cs' : list (gname * str)) :
  consumed (MState (w ++ s) cs) (MState s cs') = w.
Proof.
  unfold consumed; simpl. rewrite length_app.
  replace (length w + length s - length s) with (length w) by lia.
  rewrite firstn_app, firstn_all, Nat.sub_diag. simpl. apply app_nil_r.
Qed.

Lemma iterate_sound (g : bool) (r : regex) (fuel : nat) :
  (forall st st', In st' (ms r st) -> matches r st st') ->
  forall st st', In st' (iterate g (ms r) fuel st) -> matches (Star g r) st st'.
Proof.
  intros Hr. induction fuel as [|f IH]; intros st st' I.
  - destruct I as [<-|[]]. constructor.
  - simpl in I.
    assert (C : st' = st \/
                In st' (flat_map (iterate g (ms r) f)
                          (filter (progress st) (ms r st)))).
    { destruct g.
      - apply in_app_or in I as [I|[<-|[]]]; auto.
      - destruct I as [<-|I]; auto. }
    destruct C as [->|I']; [constructor|].
    apply in_flat_map in I' as (st2 & I2 & I3).
    apply filter_In in I2 as [I2 P].
    eapply M_star_step; [apply Hr, I2 | exact P | apply IH, I3].
Qed.

Theorem ms_sound (r : regex) (st st' : mstate) :
  In st' (ms r st) -> matches r st st'.
Proof.
  revert st st'; induction r as [|p|a IHa b IHb|a IHa b IHb|g r IH|g r IH];
    intros st st' I; cbn [ms] in I.
  - destruct I as [<-|[]]. constructor.
  - destruct st as [[|c t] cs]; simpl in I; [destruct I|].
    destruct (p c) eqn:P; [|destruct I].
    destruct I as [<-|[]]. constructor; exact P.
  - apply in_flat_map in I as (st2 & I1 & I2).
    econstructor; [apply IHa, I1 | apply IHb, I2].
  - apply in_app_or in I as [I|I];
      [apply M_alt_l, IHa, I | apply M_alt_r, IHb, I].
  - eapply iterate_sound; [exact IH | exact I].
  - apply in_map_iff in I as (st2 & <- & I). constructor. apply IH, I.
Qed.

Lemma iterate_complete (g : bool) (r : regex) :
  (forall st st', matches r st st' -> In st' (ms r st)) ->
  forall st st', matches (Star g r) st st' ->
  forall fuel, length (rest st) < fuel ->
  In st' (iterate g (ms r) fuel st).
Proof.
  intros Hr st st' H. remember (Star g r) as R eqn:ER.
  induction H as [| | | | |g' r' st|g' r' st1 st2 st3 H1 _ P H2 IH2|];
    try discriminate; injection ER as -> ->; intros fuel Hf.
  - destruct fuel as [|f]; [lia|]. simpl.
    destruct g; [apply in_or_app; right|]; left; reflexivity.
  - destruct fuel as [|f]; [lia|]. simpl.
    assert (I : In st3 (flat_map (iterate g (ms r) f)
                          (filter (progress st1) (ms r st1)))).
    { apply in_flat_map. exists st2. split.
      - apply filter_In. split; [apply Hr, H1 | exact P].
      - apply IH2; [reflexivity|].
        unfold progress in P. apply Nat.ltb_lt in P. lia. }
    destruct g; [apply in_or_app; left | right]; exact I.
Qed.

Theorem ms_complete (r : regex) (st st' : mstate) :
  matches r st st' -> In st' (ms r st).
Proof.
  revert st st'; induction r as [|p|a IHa b IHb|a IHa b IHb|g r IH|g r IH];
    intros st st' H.
  - inversion H; subst. left; reflexivity.
  - inversion H as [|p' c t cs P| | | | | |]; subst. simpl. rewrite P.
    left; reflexivity.
  - inversion H as [| |a' b' st1 st2 st3 H1 H2| | | | |]; subst. simpl.
    apply in_flat_map. exists st2. split; [apply IHa, H1 | apply IHb, H2].
  - simpl. apply in_or_app.
    inversion H; subst; [left; apply IHa | right; apply IHb]; assumption.
  - cbn [ms]. eapply iterate_complete; [exact IH | exact H | lia].
  - inversion H as [| | | | | | |g' r' st0 st1 H1]; subst. simpl.
    apply in_map_iff. exists st1. split; [reflexivity | apply IH, H1].
Qed.

(** An attempt reports a match exactly when there is one, and what it
    reports is a match. *)
Lemma ms_head (r : regex) (st m : mstate) (l : list mstate) :
  ms r st = m :: l -> matches r st m.
Proof. intros E. apply ms_sound. rewrite E. left; reflexivity. Qed.

Lemma ms_none (r : regex) (st : mstate) :
  ms r st = [] -> forall m, ~ matches r st m.
Proof. intros E m H. apply ms_complete in H. rewrite E in H. exact H. Qed.

Lemma ms_some (r : regex) (st m : mstate) :
  matches r st m -> exists m' l, ms r st = m' :: l /\ matches r st m'.
Proof.
  intros H. apply ms_complete in H.
  destruct (ms r st) as [|m' l] eqn:E; [destruct H|].
  exists m', l. split; [reflexivity|]. apply ms_head with l, E.
Qed.

(** ** What the constructs of the pattern match *)

Lemma matches_eps_inv (st st' : mstate) : matches Eps st st' -> st' = st.
Proof. inversion 1; reflexivity. Qed.

Lemma matches_seq_inv (a b : regex) (st st'' : mstate) :
  matches (Seq a b) st st'' ->
  exists st', matches a st st' /\ matches b st' st''.
Proof. inversion 1; subst; eauto. Qed.

Lemma matches_cls_inv (p : ascii -> bool) (s : str) cs (st' : mstate) :
  matches (Cls p) (MState s cs) st' ->
  exists c s', p c = true /\ s = c :: s' /\ st' = MState s' cs.
Proof. inversion 1; subst; eauto. Qed.

Lemma matches_chr_inv (c : ascii) (s : str) cs (st' : mstate) :
  matches (chr c) (MState s cs) st' ->
  exists s', s = c :: s' /\ st' = MState s' cs.
Proof.
  intros H. apply matches_cls_inv in H as (x & s' & P & -> & ->).
  apply Ascii.eqb_eq in P; subst x. eauto.
Qed.

Lemma matches_lit_inv (w s : str) cs (st' : mstate) :
  matches (lit w) (MState s cs) st' ->
  exists s', s = w ++ s' /\ st' = MState s' cs.
Proof.
  revert s; induction w as [|c w IH]; intros s H; simpl in H.
  - apply matches_eps_inv in H; subst. exists s; auto.
  - apply matches_seq_inv in H as (st1 & H1 & H2).
    apply matches_chr_inv in H1 as (s1 & -> & ->).
    apply IH in H2 as (s' & -> & ->). exists s'; auto.
Qed.

Lemma matches_star_cls_inv (g : bool) (p : ascii -> bool) (st st' : mstate) :
  matches (Star g (Cls p)) st st' ->
  exists w, forallb p w = true /\ rest st = w ++ rest st' /\ caps st' = caps st.
Proof.
  intros H. remember (Star g (Cls p)) as R eqn:ER.
  induction H as [| | | | |g' r' st|g' r' st1 st2 st3 H1 _ _ _ IH|];
    try discriminate; injection ER as -> ->.
  - exists []; auto.
  - destruct IH as (w & F & E & C); [reflexivity|].
    destruct st1 as [s1 cs1].
    apply matches_cls_inv in H1 as (c & s' & P & -> & ->).
    simpl in *. exists (c :: w). simpl. rewrite P, F, E, C. auto.
Qed.

Lemma matches_star_cls (g : bool) (p : ascii -> bool) (w s : str) cs :
  forallb p w = true ->
  matches (Star g (Cls p)) (MState (w ++ s) cs) (MState s cs).
Proof.
  induction w as [|c w IH]; simpl; intros F; [constructor|].
  apply andb_true_iff in F as [P F].
  eapply M_star_step; [constructor; exact P | | apply IH, F].
  unfold progress; simpl. apply Nat.ltb_lt. lia.
Qed.

Lemma matches_plus_cls_inv (g : bool) (p : ascii -> bool) (s : str) cs
    (st' : mstate) :
  matches (plus g (Cls p)) (MState s cs) st' ->
  exists c w s', forallb p (c :: w) = true /\ s = c :: w ++ s'
                 /\ st' = MState s' cs.
Proof.
  intros H. apply matches_seq_inv in H as (st1 & H1 & H2).
  apply matches_cls_inv in H1 as (c & s1 & P & -> & ->).
  apply matches_star_cls_inv in H2 as (w & F & E & C).
  destruct st' as [s' cs']; simpl in *; subst.
  exists c, w, s'. rewrite P, F. auto.
Qed.

Lemma matches_plus_cls (g : bool) (p : ascii -> bool) (c : ascii) (w s : str)
    cs :
  forallb p (c :: w) = true ->
  matches (plus g (Cls p)) (MState (c :: w ++ s) cs) (MState s cs).
Proof.
  simpl. intros F. apply andb_true_iff in F as [P F].
  eapply M_seq; [constructor; exact P | apply matches_star_cls, F].
Qed.

Lemma matches_lit (w s : str) cs :
  matches (lit w) (MState (w ++ s) cs) (MState s cs).
Proof.
  induction w as [|c w IH]; simpl; [constructor|].
  eapply M_seq; [constructor; apply Ascii.eqb_refl | exact IH].
Qed.

Lemma matches_chr (c : ascii) (s : str) cs :
  matches (chr c) (MState (c :: s) cs) (MState s cs).
Proof. constructor. apply Ascii.eqb_refl. Qed.

Lemma matches_group_inv (g : gname) (r : regex) (st st' : mstate) :
  matches (Group g r) st st' ->
  exists st0, matches r st st0
              /\ st' = MState (rest st0) ((g, consumed st st0) :: caps st0).
Proof. inversion 1; subst; eauto. Qed.

Lemma matches_opt_inv (r : regex) (st st' : mstate) :
  matches (opt r) st st' -> matches r st st' \/ st' = st.
Proof.
  inversion 1; subst; [left; assumption|right].
  apply matches_eps_inv; assumption.
Qed.

Lemma plain_one (c : ascii) (s : str) :
  plain [ c ] s = forallb (fun x => negb (Ascii.eqb x c)) s.
Proof.
  induction s as [|x s IH]; [reflexivity|].
  simpl. rewrite orb_false_r. f_equal. exact IH.
Qed.

(** A doc comment line, and a run of them. *)
Lemma matches_doc_line_inv (s : str) cs (st' : mstate) :
  matches doc_line (MState s cs) st' ->
  exists text s', plain [ nl ] text = true
                  /\ s = (L "///" ++ text ++ [nl]) ++ s'
                  /\ st' = MState s' cs.
Proof.
  intros H. unfold doc_line, cat in H. cbn [fold_right] in H.
  apply matches_seq_inv in H as (st1 & H1 & H).
  apply matches_lit_inv in H1 as (s1 & -> & ->).
  apply matches_seq_inv in H as (st2 & H2 & H).
  apply matches_star_cls_inv in H2 as (w & F & E & C).
  destruct st2 as [s2 cs2]; simpl in E, C; subst.
  apply matches_seq_inv in H as (st3 & H3 & H).
  apply matches_chr_inv in H3 as (s3 & -> & ->).
  apply matches_eps_inv in H; subst.
  exists w, s3. split; [|split; [|reflexivity]].
  - rewrite plain_one. exact F.
  - rewrite <- !app_assoc. reflexivity.
Qed.

Lemma matches_doc_line (text s : str) cs :
  plain [ nl ] text = true ->
  matches doc_line (MState ((L "///" ++ text ++ [nl]) ++ s) cs) (MState s cs).
Proof.
  intros P. unfold doc_line, cat. cbn [fold_right].
  eapply M_seq; [|eapply M_seq; [|eapply M_seq; [|constructor]]].
  - rewrite <- app_assoc. apply matches_lit.
  - rewrite <- app_assoc. apply matches_star_cls.
    rewrite <- plain_one. exact P.
  - apply matches_chr.
Qed.

Lemma matches_docs_inv (st st' : mstate) :
  matches (Star true doc_line) st st' ->
  exists texts, forallb (plain [ nl ]) texts = true
                /\ rest st = render_docs texts ++ rest st'
                /\ caps st' = caps st.
Proof.
  intros H. remember (Star true doc_line) as R eqn:ER.
  induction H as [| | | | |g' r' st|g' r' st1 st2 st3 H1 _ _ _ IH|];
    try discriminate; injection ER as -> ->.
  - exists []; auto.
  - destruct IH as (texts & F & E & C); [reflexivity|].
    destruct st1 as [s1 cs1].
    apply matches_doc_line_inv in H1 as (text & s' & P & -> & ->).
    simpl in *. exists (text :: texts). simpl. rewrite P, F, E, C.
    rewrite <- !app_assoc. auto.
Qed.

Lemma matches_docs (texts : list str) (s : str) cs :
  forallb (plain [ nl ]) texts = true ->
  matches (Star true doc_line) (MState (render_docs texts ++ s) cs)
    (MState s cs).
Proof.
  induction texts as [|text texts IH]; simpl; intros F; [constructor|].
  apply andb_true_iff in F as [P F].
  eapply M_star_step; [| |apply IH, F].
  - rewrite <- app_assoc with (n := s).
    change (matches doc_line
              (MState ((L "///" ++ text ++ [nl]) ++ render_docs texts ++ s) cs)
              (MState (render_docs texts ++ s) cs)).
    apply matches_doc_line, P.
  - unfold progress; simpl. apply Nat.ltb_lt.
    rewrite !length_app. simpl. lia.
Qed.

(** What a match of the pattern looks like: the text it reads and the
    groups it captures. *)
Lemma export_pattern_inv (s : str) (m : mstate) :
  matches export_pattern (MState s []) m ->
  exists texts wws wpub ws1 ws2 wname ws3 wparams ws4 wret ws5 s_end,
    s = render_docs texts ++ wws ++ wpub ++ L "export" ++ ws1 ++ L "fn" ++ ws2
        ++ wname ++ ws3 ++ "("%char :: wparams ++ ")"%char :: ws4 ++ wret
        ++ ws5 ++ "{"%char :: s_end
    /\ m = MState s_end [ (Greturn, wret); (Gparams, wparams);
                          (Gname, wname); (Gdoc, render_docs texts) ]
    /\ forallb (plain [ nl ]) texts = true
    /\ forallb is_space wws = true
    /\ forallb pub_or_space wpub = true
    /\ (forallb is_space ws1 = true /\ ws1 <> [])
    /\ (forallb is_space ws2 = true /\ ws2 <> [])
    /\ (forallb is_word wname = true /\ wname <> [])
    /\ forallb is_space ws3 = true
    /\ plain [ ")"%char ] wparams = true
    /\ forallb is_space ws4 = true
    /\ (plain [ "{"%char ] wret = true /\ wret <> [])
    /\ forallb is_space ws5 = true.
Proof.
  intros H. unfold export_pattern, cat in H. cbn [fold_right] in H.
  (* doc group *)
  apply matches_seq_inv in H as (st & Hd & H).
  apply matches_group_inv in Hd as ([s0 cs0] & Hd & ->).
  apply matches_docs_inv in Hd as (texts & Ft & E & C). simpl in E, C. subst.
  rewrite consumed_app in H. cbn [rest caps] in H.
  (* white space *)
  apply matches_seq_inv in H as (st & Hw & H).
  apply matches_star_cls_inv in Hw as (wws & Fw & E & C).
  destruct st as [s1 cs1]. simpl in E, C. subst.
  (* pub *)
  apply matches_seq_inv in H as (st & Hp & H).
  assert (P : exists wpub s2, s1 = wpub ++ s2
                /\ forallb pub_or_space wpub = true
                /\ st = MState s2 [(Gdoc, render_docs texts)]).
  { apply matches_opt_inv in Hp as [Hp| ->].
    - cbn [fold_right] in Hp.
      apply matches_seq_inv in Hp as (st1 & Hp1 & Hp).
      apply matches_lit_inv in Hp1 as (s' & -> & ->).
      apply matches_seq_inv in Hp as (st2 & Hp2 & Hp).
      apply matches_plus_cls_inv in Hp2 as (c & w & s'' & F & -> & ->).
      apply matches_eps_inv in Hp; subst.
      exists (L "pub" ++ c :: w), s''. split; [|split; [|reflexivity]].
      + rewrite <- app_assoc. reflexivity.
      + change (forallb pub_or_space (c :: w) = true).
        apply forallb_forall. intros x I.
        rewrite forallb_forall in F. unfold pub_or_space.
        rewrite (F x I). reflexivity.
    - exists [], s1. auto. }
  destruct P as (wpub & s2 & -> & Pp & ->). clear Hp.
  (* export fn name *)
  apply matches_seq_inv in H as (st & H1 & H).
  apply matches_lit_inv in H1 as (s3 & -> & ->).
  apply matches_seq_inv in H as (st & H1 & H).
  apply matches_plus_cls_inv in H1 as (c1 & w1 & s4 & F1 & -> & ->).
  apply matches_seq_inv in H as (st & H1 & H).
  apply matches_lit_inv in H1 as (s5 & -> & ->).
  apply matches_seq_inv in H as (st & H1 & H).
  apply matches_plus_cls_inv in H1 as (c2 & w2 & s6 & F2 & -> & ->).
  apply matches_seq_inv in H as (st & H1 & H).
  apply matches_group_inv in H1 as (st0 & H1 & ->).
  apply matches_plus_cls_inv in H1 as (cn & wn & s7 & Fn & -> & ->).
  change (cn :: wn ++ s7) with ((cn :: wn) ++ s7) in H.
  rewrite consumed_app in H. cbn [rest caps] in H.
  apply matches_seq_inv in H as (st & H1 & H).
  apply matches_star_cls_inv in H1 as (ws3 & F3 & E & C).
  destruct st as [s8 cs8]. simpl in E, C. subst.
  apply matches_seq_inv in H as (st & H1 & H).
  apply matches_chr_inv in H1 as (s9 & -> & ->).
  (* params *)
  apply matches_seq_inv in H as (st & H1 & H).
  apply matches_group_inv in H1 as ([s10 cs10] & H1 & ->).
  apply matches_star_cls_inv in H1 as (wparams & Fp & E & C).
  simpl in E, C. subst.
  rewrite consumed_app in H. cbn [rest caps] in H.
  apply matches_seq_inv in H as (st & H1 & H).
  apply matches_chr_inv in H1 as (s11 & -> & ->).
  apply matches_seq_inv in H as (st & H1 & H).
  apply matches_star_cls_inv in H1 as (ws4 & F4 & E & C).
  destruct st as [s12 cs12]. simpl in E, C. subst.
  (* return *)
  apply matches_seq_inv in H as (st & H1 & H).
  apply matches_group_inv in H1 as (st0 & H1 & ->).
  apply matches_plus_cls_inv in H1 as (cr & wr & s13 & Fr & -> & ->).
  change (cr :: wr ++ s13) with ((cr :: wr) ++ s13) in H.
  rewrite consumed_app in H. cbn [rest caps] in H.
  apply matches_seq_inv in H as (st & H1 & H).
  apply matches_star_cls_inv in H1 as (ws5 & F5 & E & C).
  destruct st as [s14 cs14]. simpl in E, C. subst.
  apply matches_seq_inv in H as (st & H1 & H).
  apply matches_chr_inv in H1 as (s15 & -> & ->).
  apply matches_eps_inv in H. subst m.
  exists texts, wws, wpub, (c1 :: w1), (c2 :: w2), (cn :: wn), ws3, wparams,
    ws4, (cr :: wr), ws5, s15.
  rewrite !plain_one.
  repeat split; try assumption; try discriminate.
Qed.

(** ** Aligning two readings of one text *)

Lemma split_unique (P : ascii -> bool) (a a' : str) (c c' : ascii)
    (b b' : str) :
  forallb P a = true -> P c = false ->
  forallb P a' = true -> P c' = false ->
  a ++ c :: b = a' ++ c' :: b' -> a = a' /\ c = c' /\ b = b'.
Proof.
  revert a'; induction a as [|x a IH]; intros [|y a'] Fa Pc Fa' Pc' E;
    simpl in *.
  - injection E as -> ->. auto.
  - injection E as -> _. apply andb_true_iff in Fa' as [Py _]. congruence.
  - injection E as -> _. apply andb_true_iff in Fa as [Px _]. congruence.
  - injection E as -> E. apply andb_true_iff in Fa as [_ Fa].
    apply andb_true_iff in Fa' as [_ Fa'].
    destruct (IH a' Fa Pc Fa' Pc' E) as (-> & -> & ->). auto.
Qed.

Lemma occurs_suffix (pat g1 g2 : str) :
  occurs pat (g1 ++ g2) = false -> occurs pat g2 = false.
Proof.
  induction g1 as [|c g1 IH]; [auto|].
  simpl. intros H. apply orb_false_iff in H as [_ H]. apply IH, H.
Qed.






(** ** Stripping *)

Lemma forallb_rev {A} (p : A -> bool) (l : list A) :
  forallb p (rev l) = forallb p l.
Proof.
  induction l as [|x l IH]; [reflexivity|].
  simpl. rewrite forallb_app, IH. simpl. rewrite andb_true_r, andb_comm.
  reflexivity.
Qed.

Lemma lstrip_by_all (p : ascii -> bool) (s : str) :
  forallb p s = true -> lstrip_by p s = [].
Proof.
  induction s as [|c s IH]; [reflexivity|]. simpl. intros H.
  apply andb_true_iff in H as [-> H]. apply IH, H.
Qed.

Lemma lstrip_by_app_all (p : ascii -> bool) (a s : str) :
  forallb p a = true -> lstrip_by p (a ++ s) = lstrip_by p s.
Proof.
  induction a as [|c a IH]; [reflexivity|]. simpl. intros H.
  apply andb_true_iff in H as [-> H]. apply IH, H.
Qed.

Lemma lstrip_by_app (p : ascii -> bool) (x b : str) :
  lstrip_by p (x ++ b)
  = if forallb p x then lstrip_by p b else lstrip_by p x ++ b.
Proof.
  induction x as [|c x IH]; [reflexivity|]. simpl.
  destruct (p c); [exact IH|reflexivity].
Qed.

Lemma rstrip_by_app_all (p : ascii -> bool) (s b : str) :
  forallb p b = true -> rstrip_by p (s ++ b) = rstrip_by p s.
Proof.
  intros H. unfold rstrip_by. rewrite rev_app_distr, lstrip_by_app_all;
    [reflexivity|]. rewrite forallb_rev. exact H.
Qed.

Lemma lstrip_by_head (p : ascii -> bool) (c : ascii) (s : str) :
  p c = false -> lstrip_by p (c :: s) = c :: s.
Proof. intros H. simpl. rewrite H. reflexivity. Qed.

Lemma rstrip_by_last (p : ascii -> bool) (s : str) (c : ascii) :
  p c = false -> rstrip_by p (s ++ [c]) = s ++ [c].
Proof.
  intros H. unfold rstrip_by. rewrite rev_app_distr. simpl. rewrite H.
  change (c :: rev s) with ([c] ++ rev s).
  rewrite rev_app_distr, rev_involutive. reflexivity.
Qed.

Lemma rstrip_by_nil (p : ascii -> bool) : rstrip_by p [] = [].
Proof. reflexivity. Qed.

Lemma strip_sandwich (a x b : str) :
  forallb is_space a = true -> forallb is_space b = true ->
  strip (a ++ x ++ b) = strip x.
Proof.
  intros Ha Hb. unfold strip, lstrip, rstrip.
  rewrite lstrip_by_app_all by exact Ha. rewrite lstrip_by_app.
  destruct (forallb is_space x) eqn:Hx.
  - rewrite (lstrip_by_all _ _ Hb), (lstrip_by_all _ _ Hx). reflexivity.
  - apply rstrip_by_app_all, Hb.
Qed.

Lemma trimmed_ends (s : str) :
  trimmed s = true ->
  exists c, is_space c = false /\
    ((s = [c]) \/ exists c' mid, is_space c' = false /\ s = c :: mid ++ [c']).
Proof.
  destruct s as [|c s]; [discriminate|]. unfold trimmed.
  intros H. apply andb_true_iff in H as [H1 H2].
  apply negb_true_iff in H1. apply negb_true_iff in H2.
  exists c. split; [exact H1|].
  destruct s as [|c1 s]; [left; reflexivity|right].
  destruct (exists_last (l := c1 :: s)) as (mid & c' & E); [discriminate|].
  exists c', mid. rewrite E in H2 |- *.
  change (c :: mid ++ [c']) with ((c :: mid) ++ [c']) in H2.
  rewrite last_last in H2. auto.
Qed.

Lemma strip_trimmed (s : str) : trimmed s = true -> strip s = s.
Proof.
  intros H. destruct (trimmed_ends s H) as (c & Pc & [->|(c' & mid & Pc' & ->)]).
  - unfold strip, lstrip. rewrite lstrip_by_head by exact Pc.
    apply (rstrip_by_last is_space [] c Pc).
  - unfold strip, lstrip. rewrite lstrip_by_head by exact Pc.
    apply (rstrip_by_last is_space (c :: mid) c' Pc').
Qed.

Lemma word_not_space (c : ascii) : is_word c = true -> is_space c = false.
Proof.
  destruct c as [[] [] [] [] [] [] [] []]; vm_compute; congruence.
Qed.

Lemma space_not (x : ascii) (w : str) :
  is_space x = false -> forallb is_space w = true -> plain [ x ] w = true.
Proof.
  intros Hx F. rewrite plain_one. apply forallb_forall. intros c I.
  rewrite forallb_forall in F. apply negb_true_iff.
  destruct (Ascii.eqb c x) eqn:E; [|reflexivity].
  apply Ascii.eqb_eq in E; subst. rewrite (F x I) in Hx. discriminate.
Qed.

(** ** Reading a declaration *)

Lemma forallb_cons_head {A} (p : A -> bool) (x : A) (l : list A) :
  forallb p (x :: l) = true -> p x = true.
Proof. simpl. intros H. apply andb_true_iff in H as [H _]. exact H. Qed.

(** From the keyword to the brace: the name, the parameter text and the
    return type are those of the declaration. *)
Lemma signature_align (name_ params_ ret_ rest_ : str)
    (ws1 ws2 wname ws3 wparams ws4 wret ws5 s_end : str) :
  name_ <> [] -> forallb is_word name_ = true ->
  plain [ ")"%char ] params_ = true ->
  trimmed ret_ = true -> plain [ "{"%char ] ret_ = true ->
  forallb is_space ws1 = true -> ws1 <> [] ->
  forallb is_space ws2 = true -> ws2 <> [] ->
  forallb is_word wname = true -> wname <> [] ->
  forallb is_space ws3 = true ->
  plain [ ")"%char ] wparams = true ->
  forallb is_space ws4 = true ->
  plain [ "{"%char ] wret = true ->
  forallb is_space ws5 = true ->
  ws1 ++ L "fn" ++ ws2 ++ wname ++ ws3 ++ "("%char :: wparams
    ++ ")"%char :: ws4 ++ wret ++ ws5 ++ "{"%char :: s_end
  = L " fn " ++ name_ ++ L "(" ++ params_ ++ L ") " ++ ret_ ++ L " {" ++ rest_ ->
  wname = name_ /\ wparams = params_ /\ strip wret = ret_ /\ s_end = rest_.
Proof.
  intros Nn Fn Pp Tr Pr F1 N1 F2 N2 Fw Nw F3 Fp F4 Fr F5 E.
  (* the space before fn *)
  apply (split_unique is_space ws1 [" "%char] "f"%char "f"%char) in E
    as (-> & _ & E); try reflexivity; try assumption.
  injection E as E.
  (* the space before the name *)
  destruct wname as [|cn wn]; [congruence|].
  destruct name_ as [|c0 n0]; [congruence|].
  assert (Wcn := forallb_cons_head _ _ _ Fw).
  assert (Wc0 := forallb_cons_head _ _ _ Fn).
  cbn [app] in E.
  apply (split_unique is_space ws2 [" "%char] cn c0) in E
    as (-> & -> & E); try reflexivity; try assumption;
    try (apply word_not_space; assumption).
  (* the name *)
  assert (En : wn ++ ws3 ++ "("%char :: wparams ++ ")"%char :: ws4
                 ++ wret ++ ws5 ++ "{"%char :: s_end
               = n0 ++ "("%char :: params_ ++ L ") " ++ ret_ ++ L " {" ++ rest_)
    by exact E. clear E.
  simpl in Fw, Fn. apply andb_true_iff in Fw as [_ Fw].
  apply andb_true_iff in Fn as [_ Fn].
  assert (E3 : wn = n0 /\ ws3 ++ "("%char :: wparams ++ ")"%char :: ws4
                 ++ wret ++ ws5 ++ "{"%char :: s_end
               = "("%char :: params_ ++ L ") " ++ ret_ ++ L " {" ++ rest_).
  { destruct ws3 as [|c3 ws3].
    - apply (split_unique is_word wn n0 "("%char "("%char) in En
        as (-> & _ & ->); auto.
    - assert (S3 := forallb_cons_head _ _ _ F3).
      cbn [app] in En.
      apply (split_unique is_word wn n0 c3 "("%char) in En
        as (-> & -> & _); auto.
      + discriminate.
      + destruct (is_word c3) eqn:W; [|reflexivity].
        apply word_not_space in W. congruence. }
  destruct E3 as (-> & E).
  apply (split_unique is_space ws3 [] "("%char "("%char) in E
    as (-> & _ & E); try reflexivity; try assumption.
  (* the parameters *)
  rewrite plain_one in Fp, Pp.
  apply (split_unique (fun x => negb (Ascii.eqb x ")"%char))
           wparams params_ ")"%char ")"%char
           (ws4 ++ wret ++ ws5 ++ "{"%char :: s_end)
           (" "%char :: ret_ ++ L " {" ++ rest_)) in E
    as (-> & _ & E); try reflexivity; try assumption.
  (* the return type *)
  assert (E' : (ws4 ++ wret ++ ws5) ++ "{"%char :: s_end
               = (" "%char :: ret_ ++ [" "%char]) ++ "{"%char :: rest_).
  { rewrite <- !app_assoc. cbn [app]. rewrite <- app_assoc. exact E. }
  apply (split_unique (fun x => negb (Ascii.eqb x "{"%char))) in E'
    as (E' & _ & ->); try reflexivity.
  - repeat split; try reflexivity.
    rewrite <- (strip_sandwich ws4 wret ws5 F4 F5), E'.
    change (" "%char :: ret_ ++ [" "%char]) with ([" "%char] ++ ret_ ++ [" "%char]).
    rewrite strip_sandwich by reflexivity. apply strip_trimmed, Tr.
  - rewrite !forallb_app. rewrite <- !plain_one.
    rewrite (space_not "{"%char ws4), Fr, (space_not "{"%char ws5); auto.
  - rewrite <- plain_one. change (plain ["{"%char] ([" "%char] ++ ret_ ++ [" "%char]) = true).
    unfold plain. rewrite !forallb_app. fold (plain ["{"%char] ret_).
    rewrite Pr. reflexivity.
Qed.




Lemma plain_app (f : list ascii) (a b : str) :
  plain f (a ++ b) = plain f a && plain f b.
Proof. apply forallb_app. Qed.

Lemma plain_weaken (f : list ascii) (c : ascii) (s : str) :
  plain f s = true -> In c f -> plain [ c ] s = true.
Proof.
  intros P I. unfold plain in *. rewrite forallb_forall in *.
  intros x Ix. specialize (P x Ix). apply negb_true_iff in P.
  apply negb_true_iff. simpl. rewrite orb_false_r.
  destruct (Ascii.eqb x c) eqn:E; [|reflexivity].
  apply Ascii.eqb_eq in E; subst x.
  rewrite <- P. symmetry. apply existsb_exists. exists c.
  split; [exact I | apply Ascii.eqb_refl].
Qed.

Lemma join_plain (c : ascii) (sep : str) (parts : list str) :
  plain [ c ] sep = true -> forallb (plain [ c ]) parts = true ->
  plain [ c ] (join sep parts) = true.
Proof.
  intros Ps. induction parts as [|p parts IH]; [reflexivity|].
  intros F. simpl in F. apply andb_true_iff in F as [Pp F].
  destruct parts as [|q parts]; [exact Pp|].
  change (plain [c] (p ++ sep ++ join sep (q :: parts)) = true).
  rewrite !plain_app, Pp, Ps, (IH F). reflexivity.
Qed.

Lemma render_param_plain (c : ascii) (p : param) :
  c = ","%char \/ c = ")"%char ->
  param_ok p = true -> plain [ c ] (render_param p) = true.
Proof.
  intros C H. destruct p as [n t|text|]; cbn [param_ok render_param] in *.
  - repeat (apply andb_true_iff in H as [H ?]).
    rewrite !plain_app.
    rewrite (plain_weaken [","%char; ")"%char; ":"%char] c n),
            (plain_weaken [","%char; ")"%char] c t); auto.
    + rewrite andb_true_r. destruct C as [-> | ->]; reflexivity.
    + destruct C as [-> | ->]; simpl; auto.
    + destruct C as [-> | ->]; simpl; auto.
  - apply andb_true_iff in H as [_ H].
    rewrite plain_app, (plain_weaken [","%char; ")"%char] c text); auto.
    + rewrite andb_true_r. destruct C as [-> | ->]; reflexivity.
    + destruct C as [-> | ->]; simpl; auto.
  - destruct C as [-> | ->]; reflexivity.
Qed.

Lemma params_plain (ps : list param) :
  forallb param_ok ps = true ->
  plain [ ")"%char ] (join (L ", ") (map render_param ps)) = true.
Proof.
  intros F. apply join_plain; [reflexivity|].
  rewrite forallb_forall in *. intros s I.
  apply in_map_iff in I as (p & <- & I).
  apply render_param_plain; auto.
Qed.


Lemma matches_group (g : gname) (r : regex) (w s : str) cs :
  matches r (MState (w ++ s) cs) (MState s cs) ->
  matches (Group g r) (MState (w ++ s) cs) (MState s ((g, w) :: cs)).
Proof.
  intros H. apply M_group with (g := g) in H.
  rewrite consumed_app in H. exact H.
Qed.

(** The pattern matches a well-formed declaration at its start. *)
Lemma export_pattern_decl (d : decl) (rest_ : str) :
  well_formed d = true ->
  matches export_pattern (MState (render_decl d ++ rest_) [])
    (MState rest_
       [ (Greturn, d_ret d);
         (Gparams, join (L ", ") (map render_param (d_params d)));
         (Gname, d_name d);
         (Gdoc, render_docs (d_docs d)) ]).
Proof.
  intros W. unfold well_formed in W.
  apply andb_true_iff in W as [W Pr]. apply andb_true_iff in W as [W Tr].
  apply andb_true_iff in W as [W Wp]. apply andb_true_iff in W as [Wd Wn].
  destruct (d_name d) as [|cn wn] eqn:En; [discriminate|].
  destruct (d_ret d) as [|cr wr] eqn:Er; [discriminate|].
  assert (Pp := params_plain _ Wp).
  set (ptext := join (L ", ") (map render_param (d_params d))) in *.
  unfold render_decl. fold ptext. rewrite En, Er. rewrite <- !app_assoc.
  unfold export_pattern, cat. cbn [fold_right].
  eapply M_seq; [apply matches_group, matches_docs, Wd|].
  eapply M_seq; [apply M_star_stop|].
  eapply M_seq.
  { instantiate (1 := MState (L "export fn " ++ (cn :: wn) ++ L "(" ++ ptext
                              ++ L ") " ++ (cr :: wr) ++ L " {" ++ rest_)
                          [(Gdoc, render_docs (d_docs d))]).
    destruct (d_pub d).
    - apply M_alt_l. cbn [fold_right].
      eapply M_seq; [apply (@matches_lit (L "pub") _ _)|].
      eapply M_seq; [|apply M_eps].
      apply (@matches_plus_cls true is_space " "%char [] _ _). reflexivity.
    - apply M_alt_r, M_eps. }
  eapply M_seq; [apply (@matches_lit (L "export") _ _)|].
  eapply M_seq; [apply (@matches_plus_cls true is_space " "%char [] _ _); reflexivity|].
  eapply M_seq; [apply (@matches_lit (L "fn") _ _)|].
  eapply M_seq; [apply (@matches_plus_cls true is_space " "%char [] _ _); reflexivity|].
  eapply M_seq.
  { apply (@matches_group Gname (plus true (Cls is_word)) (cn :: wn) _ _).
    apply (@matches_plus_cls true is_word cn wn _ _). exact Wn. }
  eapply M_seq; [apply M_star_stop|].
  eapply M_seq; [apply matches_chr|].
  eapply M_seq.
  { apply (@matches_group Gparams _ ptext _ _). apply matches_star_cls.
    rewrite <- plain_one. exact Pp. }
  eapply M_seq; [apply matches_chr|].
  eapply M_seq; [apply (@matches_star_cls true is_space [" "%char] _ _); reflexivity|].
  eapply M_seq.
  { apply (@matches_group Greturn _ (cr :: wr) _ _).
    apply (@matches_plus_cls false _ cr wr _ _). rewrite <- plain_one. exact Pr. }
  eapply M_seq; [apply (@matches_star_cls true is_space [" "%char] _ _); reflexivity|].
  eapply M_seq; [apply matches_chr|apply M_eps].
Qed.

(** ** Scanning *)

(** The scan has fuel to spare: any amount above the length of the text
    gives the same matches. *)
Lemma finditer_fuel (r : regex) (fuel1 fuel2 : nat) (s : str) :
  length s < fuel1 -> length s < fuel2 ->
  finditer_from r fuel1 s = finditer_from r fuel2 s.
Proof.
  revert fuel2 s; induction fuel1 as [|f1 IH]; intros [|f2] s H1 H2;
    try lia.
  cbn [finditer_from].
  assert (Sk : match s with [] => [] | _ :: t => finditer_from r f1 t end
               = match s with [] => [] | _ :: t => finditer_from r f2 t end).
  { destruct s as [|c t]; [reflexivity|]. simpl in H1, H2.
    apply IH; lia. }
  destruct (ms r (MState s [])) as [|m l]; [exact Sk|].
  f_equal. destruct (length (rest m) <? length s) eqn:P; [|exact Sk].
  apply Nat.ltb_lt in P. apply IH; lia.
Qed.

Lemma finditer_from_S (r : regex) (f : nat) (s : str) :
  finditer_from r (S f) s
  = let skip := match s with [] => [] | _ :: t => finditer_from r f t end in
    match ms r (MState s []) with
    | m :: _ =>
        m :: (if length (rest m) <? length s
              then finditer_from r f (rest m) else skip)
    | [] => skip
    end.
Proof. reflexivity. Qed.

Lemma finditer_skip (r : regex) (c : ascii) (s : str) :
  ms r (MState (c :: s) []) = [] -> finditer r (c :: s) = finditer r s.
Proof.
  intros E. unfold finditer. rewrite finditer_from_S, E. reflexivity.
Qed.

Lemma finditer_match (r : regex) (s : str) (m : mstate) (l : list mstate) :
  ms r (MState s []) = m :: l -> length (rest m) < length s ->
  finditer r s = m :: finditer r (rest m).
Proof.
  intros E P. unfold finditer. rewrite finditer_from_S, E. cbv zeta.
  apply Nat.ltb_lt in P as P'. rewrite P'. f_equal.
  apply finditer_fuel; lia.
Qed.

Lemma occurs_mid (pat a b : str) : occurs pat (a ++ pat ++ b) = true.
Proof.
  induction a as [|c a IH].
  - assert (S : startswith (pat ++ b) pat = true)
      by (apply startswith_app; eauto).
    destruct (pat ++ b); simpl in *; rewrite S; reflexivity.
  - simpl. rewrite IH. apply orb_true_r.
Qed.



(** A text without the keyword has no match. *)
Lemma scan_inert (t : str) :
  occurs (L "export") t = false -> finditer export_pattern t = [].
Proof.
  assert (N : forall s, occurs (L "export") s = false ->
                        ms export_pattern (MState s []) = []).
  { intros s O. destruct (ms export_pattern (MState s [])) as [|m l] eqn:E;
      [reflexivity|].
    apply ms_head in E. apply export_pattern_inv in E
      as (texts & wws & wpub & ws1 & ws2 & wname & ws3 & wparams & ws4 & wret
          & ws5 & s_end & E & _).
    assert (X : exists a b, s = a ++ L "export" ++ b).
    { exists (render_docs texts ++ wws ++ wpub). eexists.
      rewrite E, <- !app_assoc. reflexivity. }
    destruct X as (a & b & ->). rewrite occurs_mid in O. discriminate. }
  induction t as [|c t IH]; intros O.
  - unfold finditer. rewrite finditer_from_S, (N [] O). reflexivity.
  - rewrite finditer_skip by (apply N, O).
    apply IH. apply (@occurs_suffix _ [c] t O).
Qed.

(** ** Doc text *)

(** A text is what [rstrip] keeps followed by white space. *)
Lemma rstrip_by_split (p : ascii -> bool) (s : str) :
  exists b, s = rstrip_by p s ++ b /\ forallb p b = true
            /\ (rstrip_by p s = [] \/
                exists a c, rstrip_by p s = a ++ [c] /\ p c = false).
Proof.
  induction s as [|c s IH] using rev_ind.
  - exists []. simpl. auto.
  - destruct (p c) eqn:P.
    + destruct IH as (b & E & F & K).
      exists (b ++ [c]).
      rewrite (@rstrip_by_app_all p s [c]) by (simpl; rewrite P; reflexivity).
      split; [rewrite app_assoc, <- E; reflexivity|].
      split; [rewrite forallb_app, F; simpl; rewrite P; reflexivity|exact K].
    + exists []. rewrite (rstrip_by_last p s c P), app_nil_r.
      split; [reflexivity|]. split; [reflexivity|]. right. eauto.
Qed.

Lemma rstrip_by_keep (p : ascii -> bool) (y : str) (c : ascii) (t : str) :
  p c = false ->
  rstrip_by p ((y ++ [c]) ++ t) = (y ++ [c]) ++ rstrip_by p t.
Proof.
  intros P. destruct (rstrip_by_split p t) as (b & E & F & K).
  rewrite E at 1. rewrite app_assoc, rstrip_by_app_all by exact F.
  destruct K as [-> | (a & c' & -> & P')].
  - rewrite app_nil_r. apply rstrip_by_last, P.
  - rewrite app_assoc. apply rstrip_by_last, P'.
Qed.







Lemma doc_line_clean (t : str) :
  strip (lstrip_by slash (L "///" ++ t)) = strip (lstrip_by slash t).
Proof. reflexivity. Qed.



(** ** Parameter text *)



Lemma trimmed_intro (s : str) (c : ascii) (r a : str) (c' : ascii) :
  s = c :: r -> is_space c = false ->
  s = a ++ [c'] -> is_space c' = false -> trimmed s = true.
Proof.
  intros E1 P1 E2 P2. subst s. unfold trimmed.
  rewrite E2, last_last, P1, P2. reflexivity.
Qed.










(** ** The scanner on well-formed sources *)







(** C4, on the code: a parameter whose name begins with [comptime] is
    taken for a compile-time parameter and left out, and a declaration
    that follows a comment holding [export fn old()] is read as the
    return type of a function [old]. *)
Theorem parse_zig_exports_failing_inputs :
  map (fun func => (name func, params func))
    (parse_zig_exports (L "export fn f(comptime_len: usize) void {"))
  = [ (L "f", []) ]
  /\ map (fun func => (name func, return_type func))
       (parse_zig_exports
          (L "// export fn old()" ++ [nl]
           ++ L "export fn add(a: i32, b: i32) i32 {"))
     = [ (L "old", L "export fn add(a: i32, b: i32) i32") ].
Proof. split; vm_compute; reflexivity. Qed.

(** ** Scenario A *)

Lemma declares_at_intro (s : str) (m : mstate) :
  matches export_decl (MState s []) m -> declares_at s = true.
Proof.
  intros H. apply ms_complete in H. unfold declares_at.
  destruct (ms export_decl (MState s [])); [destruct H | reflexivity].
Qed.

Lemma decl_declares (ws1 ws2 wname ws3 wparams ws4 wret ws5 s_end : str) :
  forallb is_space ws1 = true -> ws1 <> [] ->
  forallb is_space ws2 = true -> ws2 <> [] ->
  forallb is_word wname = true -> wname <> [] ->
  forallb is_space ws3 = true ->
  plain [ ")"%char ] wparams = true ->
  forallb is_space ws4 = true ->
  plain [ "{"%char ] wret = true -> wret <> [] ->
  forallb is_space ws5 = true ->
  declares_at (L "export" ++ ws1 ++ L "fn" ++ ws2 ++ wname ++ ws3
               ++ "("%char :: wparams ++ ")"%char :: ws4 ++ wret ++ ws5
               ++ "{"%char :: s_end) = true.
Proof.
  intros F1 N1 F2 N2 Fn Nn F3 Fp F4 Fr Nr F5.
  destruct ws1 as [|c1 w1]; [congruence|].
  destruct ws2 as [|c2 w2]; [congruence|].
  destruct wname as [|cn wn]; [congruence|].
  destruct wret as [|cr wr]; [congruence|].
  rewrite plain_one in Fp, Fr.
  apply declares_at_intro with (m := MState s_end []).
  unfold export_decl, cat. cbn [fold_right].
  eapply M_seq; [apply (@matches_lit (L "export") _ _)|].
  eapply M_seq; [apply (@matches_plus_cls true is_space c1 w1 _ _ F1)|].
  eapply M_seq; [apply (@matches_lit (L "fn") _ _)|].
  eapply M_seq; [apply (@matches_plus_cls true is_space c2 w2 _ _ F2)|].
  eapply M_seq; [apply (@matches_plus_cls true is_word cn wn _ _ Fn)|].
  eapply M_seq; [apply (@matches_star_cls true is_space ws3 _ _ F3)|].
  eapply M_seq; [apply matches_chr|].
  eapply M_seq; [apply (@matches_star_cls true _ wparams _ _ Fp)|].
  eapply M_seq; [apply matches_chr|].
  eapply M_seq; [apply (@matches_star_cls true is_space ws4 _ _ F4)|].
  eapply M_seq; [apply (@matches_plus_cls false _ cr wr _ _ Fr)|].
  eapply M_seq; [apply (@matches_star_cls true is_space ws5 _ _ F5)|].
  eapply M_seq; [apply matches_chr | apply M_eps].
Qed.

(** Every match of the pattern holds the text of a declaration. *)
Lemma match_declares (s : str) (m : mstate) :
  matches export_pattern (MState s []) m ->
  exists texts wws wpub ws1 ws2 wname ws3 wparams ws4 wret ws5 s_end,
    s = (render_docs texts ++ wws ++ wpub)
        ++ L "export" ++ ws1 ++ L "fn" ++ ws2 ++ wname ++ ws3
        ++ "("%char :: wparams ++ ")"%char :: ws4 ++ wret ++ ws5
        ++ "{"%char :: s_end
    /\ declares_at (L "export" ++ ws1 ++ L "fn" ++ ws2 ++ wname ++ ws3
                 ++ "("%char :: wparams ++ ")"%char :: ws4 ++ wret ++ ws5
                 ++ "{"%char :: s_end) = true
    /\ m = MState s_end [ (Greturn, wret); (Gparams, wparams);
                          (Gname, wname); (Gdoc, render_docs texts) ]
    /\ (forallb is_space ws1 = true /\ ws1 <> [])
    /\ (forallb is_space ws2 = true /\ ws2 <> [])
    /\ (forallb is_word wname = true /\ wname <> [])
    /\ forallb is_space ws3 = true
    /\ plain [ ")"%char ] wparams = true
    /\ forallb is_space ws4 = true
    /\ plain [ "{"%char ] wret = true
    /\ forallb is_space ws5 = true.
Proof.
  intros H. apply export_pattern_inv in H
    as (texts & wws & wpub & ws1 & ws2 & wname & ws3 & wparams & ws4 & wret
        & ws5 & s_end & E & -> & Ft & Fw & Fp & (F1 & N1) & (F2 & N2)
        & (Fn & Nn) & F3 & Fpar & F4 & (Fr & Nr) & F5).
  exists texts, wws, wpub, ws1, ws2, wname, ws3, wparams, ws4, wret, ws5, s_end.
  split; [rewrite E, <- !app_assoc; reflexivity|].
  split; [apply decl_declares; assumption|].
  repeat split; assumption.
Qed.

Lemma declarations_suffix (a b : str) :
  declarations (a ++ b) = 0 -> declares_at b = false /\ declarations b = 0.
Proof.
  induction a as [|c a IH]; intros H.
  - split; [|exact H]. destruct (declares_at b) eqn:O; [|reflexivity].
    destruct b; cbn [app declarations] in H; rewrite O in H; discriminate.
  - cbn [app declarations] in H. apply IH. lia.
Qed.

Lemma declarations_least (a b : str) : declares_at b = true -> 1 <= declarations (a ++ b).
Proof.
  intros O. induction a as [|c a IH].
  - destruct b; cbn [app declarations]; rewrite O; lia.
  - cbn [app declarations]. lia.
Qed.

(** When the text of a declaration begins at one place only, none begins
    before that place or after it. *)
Lemma declarations_one (x s : str) :
  declarations (x ++ s) = 1 -> declares_at s = true ->
  (forall a c b, x = a ++ c :: b -> declares_at (c :: b ++ s) = false)
  /\ declarations (tl s) = 0.
Proof.
  intros H O. induction x as [|y x IH].
  - split; [intros [|? ?] ? ? E; discriminate|].
    destruct s as [|c t]; cbn [app declarations tl] in H |- *; rewrite O in H;
      [reflexivity | lia].
  - assert (G := declarations_least x s O).
    cbn [app declarations] in H.
    destruct (declares_at (y :: x ++ s)) eqn:Oy; [lia|].
    destruct IH as [IH1 IH2]; [exact H|]. split; [|exact IH2].
    intros [|y' a] c b E; simpl in E; injection E as -> ->.
    + exact Oy.
    + apply (IH1 a c b eq_refl).
Qed.

(** The readings of the declaration [add]. *)
Lemma attempt_add (y after : str) (m : mstate) :
  (forall a c b, y = a ++ c :: b -> declares_at (c :: b ++ add_text ++ after) = false) ->
  declarations (tl (add_text ++ after)) = 0 ->
  matches export_pattern (MState (y ++ add_text ++ after) []) m ->
  exists texts wws wpub wret,
    y = render_docs texts ++ wws ++ wpub
    /\ strip wret = L "i32"
    /\ m = MState after [ (Greturn, wret); (Gparams, L "a: i32, b: i32");
                          (Gname, L "add"); (Gdoc, render_docs texts) ].
Proof.
  intros P1 P2 H. apply match_declares in H
    as (texts & wws & wpub & ws1 & ws2 & wname & ws3 & wparams & ws4 & wret
        & ws5 & s_end & E & O & -> & (F1 & N1) & (F2 & N2)
        & (Fn & Nn) & F3 & Fpar & F4 & Fr & F5).
  remember (render_docs texts ++ wws ++ wpub) as pre eqn:Epre.
  remember (L "export" ++ ws1 ++ L "fn" ++ ws2 ++ wname ++ ws3
            ++ "("%char :: wparams ++ ")"%char :: ws4 ++ wret ++ ws5
            ++ "{"%char :: s_end) as H eqn:EH.
  assert (K : y = pre /\ H = add_text ++ after).
  { apply app_eq_app in E as (k & [(E1 & E2)|(E1 & E2)]).
    - destruct k as [|c k]; [rewrite app_nil_r in E1; auto|]. exfalso.
      assert (X := P1 pre c k E1). rewrite E2 in O. cbn [app] in O.
      congruence.
    - destruct k as [|c k]; [rewrite app_nil_r in E1; auto|]. exfalso.
      assert (X : tl (add_text ++ after) = k ++ H).
      { rewrite E2. reflexivity. }
      rewrite X in P2. apply declarations_suffix in P2 as [P2 _].
      congruence. }
  destruct K as (Ey & E'). rewrite EH in E'.
  change (add_text ++ after)
    with (L "export" ++ L " fn " ++ L "add" ++ L "(" ++ L "a: i32, b: i32"
          ++ L ") " ++ L "i32" ++ L " {" ++ after) in E'.
  apply app_inv_head in E'.
  apply signature_align in E' as (-> & -> & S & ->);
    try assumption; try discriminate; try reflexivity.
  exists texts, wws, wpub, wret. subst pre. auto.
Qed.

Lemma add_text_matches (after : str) :
  exists m, matches export_pattern (MState (add_text ++ after) []) m.
Proof.
  eexists. apply (@export_pattern_decl add_decl after). reflexivity.
Qed.

Lemma scan_add (before after : str) :
  (forall a c b, before = a ++ c :: b ->
     declares_at (c :: b ++ add_text ++ after) = false) ->
  declarations (tl (add_text ++ after)) = 0 ->
  exists y texts wws wpub wret,
    (exists x, before = x ++ y)
    /\ y = render_docs texts ++ wws ++ wpub
    /\ strip wret = L "i32"
    /\ finditer export_pattern (before ++ add_text ++ after)
       = MState after [ (Greturn, wret); (Gparams, L "a: i32, b: i32");
                        (Gname, L "add"); (Gdoc, render_docs texts) ]
         :: finditer export_pattern after.
Proof.
  intros P1 P2. induction before as [|c g IH].
  - destruct (add_text_matches after) as (m0 & H0).
    destruct (ms_some H0) as (m & l & E & H).
    destruct (@attempt_add [] after m P1 P2 H)
      as (texts & wws & wpub & wret & Ey & S & ->).
    exists [], texts, wws, wpub, wret.
    split; [exists []; reflexivity|]. split; [exact Ey|]. split; [exact S|].
    apply finditer_match with l; [exact E|].
    cbn [rest app]. rewrite length_app. simpl. lia.
  - destruct (ms export_pattern (MState ((c :: g) ++ add_text ++ after) []))
      as [|m l] eqn:E.
    + destruct IH as (y & texts & wws & wpub & wret & (x & Ex) & Ey & S & F).
      { intros a c' b Eg. apply (P1 (c :: a) c' b). rewrite Eg. reflexivity. }
      exists y, texts, wws, wpub, wret.
      split; [exists (c :: x); rewrite Ex; reflexivity|].
      split; [exact Ey|]. split; [exact S|].
      rewrite <- F. apply finditer_skip, E.
    + destruct (@attempt_add (c :: g) after m P1 P2 (@ms_head _ _ _ _ E))
        as (texts & wws & wpub & wret & Ey & S & ->).
      exists (c :: g), texts, wws, wpub, wret.
      split; [exists []; reflexivity|]. split; [exact Ey|]. split; [exact S|].
      apply finditer_match with l; [exact E|].
      cbn [rest]. rewrite !length_app. simpl. lia.
Qed.

(** A text that holds no text of a declaration has no match. *)
Lemma scan_quiet (t : str) :
  declarations t = 0 -> finditer export_pattern t = [].
Proof.
  assert (N : forall s, declares_at s = false -> declarations s = 0 ->
                        ms export_pattern (MState s []) = []).
  { intros s O Z. destruct (ms export_pattern (MState s [])) as [|m l] eqn:E;
      [reflexivity|].
    apply ms_head in E. apply match_declares in E
      as (texts & wws & wpub & ws1 & ws2 & wname & ws3 & wparams & ws4 & wret
          & ws5 & s_end & E & Oh & _).
    rewrite E in Z. apply declarations_suffix in Z as [Z _]. congruence. }
  induction t as [|c t IH]; intros Z.
  - unfold finditer. rewrite finditer_from_S, N; [reflexivity| |exact Z].
    apply (@declarations_suffix [] [] Z).
  - assert (Z' := @declarations_suffix [c] t Z). destruct Z' as [_ Z'].
    rewrite finditer_skip.
    + apply IH, Z'.
    + apply N; [|exact Z]. apply (@declarations_suffix [] (c :: t) Z).
Qed.

Lemma quiet_files (files : list zig_file) :
  forallb quiet files = true ->
  flat_map (fun f => match outcome (fun source => Ok (parse_zig_exports source)) f with
                     | Ok functions => functions
                     | Raise _ => []
                     end) files = [].
Proof.
  intros F. apply flat_map_nil. intros f I.
  rewrite forallb_forall in F. specialize (F f I).
  unfold quiet in F. unfold outcome.
  destruct (zf_read f) as [source|e]; [|reflexivity].
  cbn [bind]. unfold parse_zig_exports.
  apply Nat.eqb_eq in F. rewrite (@scan_quiet _ F). reflexivity.
Qed.

Lemma render_docs_starts (text : str) (texts : list str) :
  exists z, render_docs (text :: texts) = L "///" ++ z.
Proof.
  exists (text ++ [nl] ++ render_docs texts).
  unfold render_docs. cbn [flat_map]. rewrite <- !app_assoc. reflexivity.
Qed.

(** The wrapper of a function [add(a: i32, b: i32) i32], whatever its doc
    text. *)
Lemma wrapper_add (gil_release : bool) (doc_text : str) :
  let func := mkZigFunction (L "add") (L "i32")
                [ (L "a", L "i32"); (L "b", L "i32") ] doc_text true in
  exists call,
    wrapper gil_release func
    = Ok ([ L "def add(a, b):" ] ++ wrapper_doc func
          ++ [ L "    lib = _load_library()";
               L "    func = lib.add";
               L "    func.argtypes = [ctypes.c_int32, ctypes.c_int32]";
               L "    func.restype = ctypes.c_int32" ]
          ++ call).
Proof.
  intros func. destruct gil_release.
  - exists [ L "    with _release_gil:"; L "        return func(a, b)";
             L ""; L "" ]. reflexivity.
  - exists [ L "    return func(a, b)"; L ""; L "" ]. reflexivity.
Qed.

(** C1, as the code has it.  In a source tree where the text of an
    export declaration begins at one place only, comments and string
    literals included, and that place is the declaration [export fn
    add(a: i32, b: i32) i32 {] of one file, the scan gives one record,
    named [add], with the parameters [a] and [b] of type [i32] and the
    return type [i32], and with an empty doc text when no doc comment
    marker comes before the declaration; the
    generated module lists exactly [add] in [__all__], defines
    [add(a, b)], and binds both arguments and the result to the 32-bit
    signed integer. *)
Theorem scenario_add (earlier later : list zig_file)
    (before after file_path module_name lib_filename : str)
    (gil_release : bool) :
  let source := before ++ L "export fn add(a: i32, b: i32) i32 {" ++ after in
  declarations source = 1 ->
  forallb quiet (earlier ++ later) = true ->
  let functions :=
    fst (scan_zig_sources
           (earlier ++ mkZigFile file_path (Ok source) :: later)) in
  (exists doc_text,
     functions = [ mkZigFunction (L "add") (L "i32")
                     [ (L "a", L "i32"); (L "b", L "i32") ] doc_text true ])
  /\ (occurs (L "///") before = false -> functions = [ add_function ])
  /\ map name functions = [ L "add" ]
  /\ (forall func, In func functions ->
        mapM parse_zig_type (map snd (params func))
        = Ok [ L "ctypes.c_int32"; L "ctypes.c_int32" ]
        /\ parse_zig_type (return_type func) = Ok (L "ctypes.c_int32"))
  /\ exists lines,
       generate_init_py_lines module_name functions lib_filename gil_release
       = Ok lines
       /\ generate_init_py module_name functions lib_filename gil_release
          = Ok (join [nl] lines)
       /\ (exists above below,
             lines = above ++ [ L "__all__ = ["; Q "    'add',"; L "]" ]
                     ++ below)
       /\ In (L "def add(a, b):") lines
       /\ In (L "    func.argtypes = [ctypes.c_int32, ctypes.c_int32]") lines
       /\ In (L "    func.restype = ctypes.c_int32") lines.
Proof.
  intros source O Fq functions.
  fold add_text in source.
  assert (Oa : declares_at (add_text ++ after) = true).
  { change (add_text ++ after)
      with (L "export" ++ L " " ++ L "fn" ++ L " " ++ L "add" ++ []
            ++ "("%char :: L "a: i32, b: i32" ++ ")"%char :: L " " ++ L "i32"
            ++ L " " ++ "{"%char :: after).
    apply decl_declares; try reflexivity; discriminate. }
  destruct (@declarations_one before (add_text ++ after) O Oa) as [P1 P2].
  destruct (@scan_add before after P1 P2)
    as (y & texts & wws & wpub & wret & (x & Ex) & Ey & S & F).
  assert (Za : declarations after = 0).
  { change (tl (add_text ++ after))
      with (L "xport fn add(a: i32, b: i32) i32 {" ++ after) in P2.
    apply (@declarations_suffix _ _ P2). }
  rewrite (@scan_quiet _ Za) in F.
  rewrite forallb_app in Fq. apply andb_true_iff in Fq as [Fe Fl].
  assert (Fs : functions
               = [ mkZigFunction (L "add") (L "i32")
                     [ (L "a", L "i32"); (L "b", L "i32") ]
                     (parse_doc (strip (render_docs texts))) true ]).
  { unfold functions, scan_zig_sources, scan_with.
    rewrite scan_with_fold. cbn [fst app].
    rewrite flat_map_app. cbn [flat_map].
    rewrite (@quiet_files _ Fe), (@quiet_files _ Fl).
    unfold outcome at 1. cbn [zf_read bind app].
    unfold parse_zig_exports, source. rewrite F. cbn [map].
    unfold function_of_match. cbn [caps group gname_eqb]. rewrite S.
    rewrite app_nil_r. reflexivity. }
  rewrite Fs. split; [eexists; reflexivity|].
  split.
  { intros N. destruct texts as [|text texts]; [reflexivity|]. exfalso.
    destruct (render_docs_starts text texts) as (z & Ez).
    rewrite Ex, Ey, Ez, <- !app_assoc in N.
    rewrite occurs_mid in N. discriminate. }
  split; [reflexivity|].
  split.
  { intros func [<- | []]. split; reflexivity. }
  destruct (wrapper_add gil_release (parse_doc (strip (render_docs texts))))
    as (call & W).
  unfold generate_init_py, generate_init_py_lines. cbn [mapM bind]. rewrite W.
  cbn [bind]. eexists. split; [reflexivity|]. split; [reflexivity|].
  cbn [map List.concat]. rewrite app_nil_r.
  split; [|repeat split].
  - exists (removelast (init_header module_name)). eexists.
    change (init_header module_name)
      with (removelast (init_header module_name) ++ [ L "__all__ = [" ]).
    rewrite <- !app_assoc. reflexivity.
  - do 6 (apply in_or_app; right). apply in_or_app; left.
    apply in_or_app; left. left; reflexivity.
  - do 6 (apply in_or_app; right). apply in_or_app; left.
    do 2 (apply in_or_app; right). apply in_or_app; left.
    right; right; left; reflexivity.
  - do 6 (apply in_or_app; right). apply in_or_app; left.
    do 2 (apply in_or_app; right). apply in_or_app; left.
    right; right; right; left; reflexivity.
Qed.

Lemma scenario_add_witness :
  fst (scan_zig_sources
         [ mkZigFile (L "/proj/src/bad.zig")
             (Raise (UnicodeDecodeError (L "invalid start byte")));
           mkZigFile (L "/proj/src/lib.zig")
             (Ok (L "// exported to Python" ++ [nl]
                  ++ L "  export fn add(a: i32, b: i32) i32 { return a + b; }"
                  ++ [nl] ++ L "// export fn sub(a: i32, b: i32) i32 is to come"
                  ++ [nl]));
           mkZigFile (L "/proj/src/util.zig")
             (Ok (L "fn helper() void {}")) ])
  = [ add_function ].
Proof.
  apply (proj1 (proj2
           (@scenario_add
              [ mkZigFile (L "/proj/src/bad.zig")
                  (Raise (UnicodeDecodeError (L "invalid start byte"))) ]
              [ mkZigFile (L "/proj/src/util.zig")
                  (Ok (L "fn helper() void {}")) ]
              (L "// exported to Python" ++ [nl] ++ L "  ")
              (L " return a + b; }" ++ [nl]
               ++ L "// export fn sub(a: i32, b: i32) i32 is to come" ++ [nl])
              (L "/proj/src/lib.zig") (L "demo") (L "libdemo.so") true
              eq_refl eq_refl))).
  reflexivity.
Defined.

(** C1, as the claim has it, fails: the scan does not tell code from
    string literals, so a source whose only export declaration is [add]
    and whose body holds the text of a declaration in a string gives two
    records, and the generated module lists both. *)
Lemma string_literal_counterexample :
  let source :=
    Q "export fn add(a: i32, b: i32) i32 { log('export fn x() void {'); return a + b; }" in
  let functions :=
    fst (scan_zig_sources [ mkZigFile (L "/proj/src/lib.zig") (Ok source) ]) in
  declarations source = 2
  /\ map name functions = [ L "add"; L "x" ]
  /\ exists lines,
       generate_init_py_lines (L "demo") functions (L "libdemo.so") true
       = Ok lines
       /\ In (Q "    'x',") lines.
Proof.
  split; [vm_compute; reflexivity|]. split; [vm_compute; reflexivity|].
  eexists. split; [vm_compute; reflexivity|].
  do 19 right. left. reflexivity.
Qed.

(* ================================================================== *)
(** * Part III: further properties of the code                         *)
(* ================================================================== *)

(** ** Type mapper *)

(** The type mapper is a table lookup on the trimmed spelling with the
    opaque pointer as the default: the pointer branch and the optional
    branch change nothing. *)
Theorem parse_zig_type_lookup (zig_type : str) :
  parse_zig_type zig_type
  = Ok (match dict_get ZIG_TO_CTYPES (strip zig_type) with
        | Some descriptor => descriptor
        | None => c_void_p
        end).
Proof.
  unfold parse_zig_type, dict_mem, dict_getitem.
  destruct (dict_get ZIG_TO_CTYPES (strip zig_type)); [reflexivity|].
  destruct (pointer_shaped (strip zig_type)); [reflexivity|].
  destruct (startswith (strip zig_type) (L "?")); [|reflexivity].
  destruct (pointer_shaped (strip (tl (strip zig_type)))); reflexivity.
Qed.

(** White space around a spelling does not change its descriptor. *)
Theorem parse_zig_type_ignores_padding (before zig_type after : str) :
  forallb is_space before = true -> forallb is_space after = true ->
  parse_zig_type (before ++ zig_type ++ after) = parse_zig_type zig_type.
Proof.
  intros B A. rewrite !parse_zig_type_lookup.
  rewrite (@strip_sandwich before zig_type after B A). reflexivity.
Qed.

Lemma parse_zig_type_ignores_padding_witness :
  parse_zig_type (L "  " ++ L "i32" ++ [nl]) = parse_zig_type (L "i32").
Proof.
  apply (@parse_zig_type_ignores_padding (L "  ") (L "i32") [nl]); reflexivity.
Defined.

(** Every spelling of the table maps to the descriptor listed with it:
    no key is shadowed by an earlier one or changed by trimming. *)
Theorem parse_zig_type_table (spelling descriptor : str) :
  In (spelling, descriptor) ZIG_TO_CTYPES ->
  parse_zig_type spelling = Ok descriptor.
Proof.
  intros I.
  assert (A : forallb (fun kv => match parse_zig_type (fst kv) with
                                 | Ok d => str_eqb d (snd kv)
                                 | Raise _ => false
                                 end) ZIG_TO_CTYPES = true)
    by (vm_compute; reflexivity).
  rewrite forallb_forall in A. specialize (A _ I). simpl in A.
  destruct (parse_zig_type spelling) as [d|]; [|discriminate].
  apply str_eqb_spec in A. congruence.
Qed.

Lemma parse_zig_type_table_witness :
  parse_zig_type (L "[*c]const u8") = Ok (L "ctypes.c_char_p").
Proof.
  apply parse_zig_type_table. vm_compute. do 24 right. left. reflexivity.
Defined.

(** ** Scanning a text without the keyword *)

(** A source in which the word [export] does not occur, the empty source
    included, has no exported function. *)
Theorem parse_zig_exports_without_keyword (zig_source : str) :
  occurs (L "export") zig_source = false ->
  parse_zig_exports zig_source = [].
Proof.
  intros O. unfold parse_zig_exports. rewrite (@scan_inert zig_source O).
  reflexivity.
Qed.

Lemma parse_zig_exports_without_keyword_witness :
  parse_zig_exports (L "pub fn helper(x: u8) u8 { return x; }") = [].
Proof. apply parse_zig_exports_without_keyword. reflexivity. Defined.

(** ** Finding the compiler *)

(** A compiler on the search path wins over every install location;
    otherwise the first install location that exists is returned, and
    the not-found error is raised exactly when there is none. *)
Theorem find_zig_outcomes (h : host) :
  (forall c zig_path, which_zig h = Some (c :: zig_path) ->
     find_zig h = Ok (c :: zig_path))
  /\ (which_zig h = None \/ which_zig h = Some [] ->
      (forall p, find (fs_exists (disk h)) (common_paths h) = Some p ->
         find_zig h = Ok (path_str h p)
         /\ In p (common_paths h) /\ fs_exists (disk h) p = true)
      /\ ((forall p, In p (common_paths h) -> fs_exists (disk h) p = false) ->
          find_zig h = Raise (FileNotFoundError zig_not_found)))
  /\ ((exists e, find_zig h = Raise e) ->
      forall p, In p (common_paths h) -> fs_exists (disk h) p = false).
Proof.
  unfold find_zig. split; [|split].
  - intros c zig_path ->. reflexivity.
  - intros W.
    assert (E : match which_zig h with
                | Some ((_ :: _) as zig_path) => Ok zig_path
                | _ => match find (fs_exists (disk h)) (common_paths h) with
                       | Some p => Ok (path_str h p)
                       | None => Raise (FileNotFoundError zig_not_found)
                       end
                end
                = match find (fs_exists (disk h)) (common_paths h) with
                  | Some p => Ok (path_str h p)
                  | None => Raise (FileNotFoundError zig_not_found)
                  end)
      by (destruct W as [-> | ->]; reflexivity).
    rewrite E. split.
    + intros p F. rewrite F. split; [reflexivity|].
      apply find_some in F. exact F.
    + intros N. destruct (find _ _) as [p|] eqn:F; [|reflexivity].
      apply find_some in F as [I X]. rewrite (N p I) in X. discriminate.
  - intros [e R] p I.
    destruct (which_zig h) as [[|c z]|]; try discriminate;
      destruct (find (fs_exists (disk h)) (common_paths h)) eqn:F;
      try discriminate;
      destruct (fs_exists (disk h) p) eqn:X; try reflexivity;
      exfalso; apply (find_none _ _ F) in I; congruence.
Qed.

Lemma find_zig_outcomes_witness : find_zig demo_host = Ok (L "/usr/bin/zig").
Proof.
  apply (proj1 (find_zig_outcomes demo_host) "/"%char (L "usr/bin/zig")).
  reflexivity.
Defined.

(** ** The generated module *)

Lemma mapM_ok {A B} (f : A -> result B) (g : A -> B) (xs : list A) :
  (forall x, f x = Ok (g x)) -> mapM f xs = Ok (map g xs).
Proof.
  intros H. induction xs as [|x xs IH]; [reflexivity|].
  simpl. rewrite H, IH. reflexivity.
Qed.

Lemma wrapper_ok (gil_release : bool) (func : ZigFunction) :
  exists body,
    wrapper gil_release func
    = Ok ((L "def " ++ name func ++ L "(" ++ param_list func ++ L "):")
          :: body).
Proof.
  unfold wrapper.
  rewrite (mapM_ok _ _ (map snd (params func)) parse_zig_type_lookup).
  rewrite parse_zig_type_lookup.
  destruct (params func); cbn [bind]; eexists; reflexivity.
Qed.

(** The generator returns a module for every list of functions.  Its
    export list holds the names of the functions, in scan order and with
    repetitions kept, between the line that opens [__all__] and the one
    that closes it, and every function has its [def] line, with its
    parameter names in order. *)
Theorem generate_init_py_total (module_name : str)
    (functions : list ZigFunction) (lib_filename : str) (gil_release : bool) :
  exists lines below,
    generate_init_py module_name functions lib_filename gil_release
    = Ok (join [nl] lines)
    /\ lines = init_header module_name ++ map all_entry functions
               ++ L "]" :: below
    /\ last (init_header module_name) [] = L "__all__ = ["
    /\ forall func, In func functions ->
         In (L "def " ++ name func ++ L "("
             ++ join (L ", ") (map fst (params func)) ++ L "):") below.
Proof.
  assert (W : exists ws, mapM (wrapper gil_release) functions = Ok ws
              /\ forall func, In func functions ->
                   In (L "def " ++ name func ++ L "("
                       ++ param_list func ++ L "):") (concat ws)).
  { induction functions as [|f fs IH].
    - exists []. split; [reflexivity|]. intros func [].
    - destruct IH as (ws & E & I). destruct (wrapper_ok gil_release f) as (body & Wf).
      exists (((L "def " ++ name f ++ L "(" ++ param_list f ++ L "):") :: body)
              :: ws). split.
      + cbn [mapM]. rewrite Wf, E. reflexivity.
      + intros func [<- | If].
        * left. reflexivity.
        * cbn [concat]. apply in_or_app. right. apply I, If. }
  destruct W as (ws & E & I).
  unfold generate_init_py, generate_init_py_lines. rewrite E. cbn [bind].
  eexists. eexists. split; [reflexivity|]. split; [reflexivity|].
  split; [reflexivity|].
  intros func If. right.
  do 3 (apply in_or_app; right). apply in_or_app; left. apply I, If.
Qed.

(** ** Building a wheel *)

Lemma bind_ok {A B} (m : result A) (f : A -> result B) (b : B) :
  (x <- m ;; f x) = Ok b -> exists a, m = Ok a /\ f a = Ok b.
Proof. destruct m as [a|e]; [eauto|discriminate]. Qed.

Lemma write_text_ok (h : host) (t t' : fs) (p : path) (content : str) :
  write_text h t p content = Ok t' ->
  t' = fs_write t p (File (text_bytes h content)).
Proof.
  unfold write_text. destruct (fs_find t p) as [[c|]|]; try discriminate;
    intros E; injection E as <-; reflexivity.
Qed.

(** A directory is made only where no file is in the way, so the files
    that were there are there afterwards. *)
Lemma mkdir_file_kept (h : host) (e : bool) (t r : fs) (w q : path)
    (c : bytes) :
  mkdir h e t w = Ok r -> fs_find t q = Some (File c) ->
  fs_find r q = Some (File c).
Proof.
  intros M Fq. rewrite (@mkdir_find_other h e t r w q M); [exact Fq|].
  intros I. unfold mkdir, fs_mkdir in M. rewrite inits_ancestors in I.
  apply in_app_or in I as [I|I].
  - assert (X : existsb (is_file t) (ancestors w) = true).
    { apply existsb_exists. exists q. split; [exact I|].
      unfold is_file. rewrite Fq. reflexivity. }
    rewrite X in M. discriminate.
  - destruct w as [|x w]; [destruct I|]. destruct I as [<-|[]].
    destruct (existsb (is_file t) (ancestors (x :: w))); [discriminate|].
    rewrite Fq in M. discriminate.
Qed.

Lemma replace_absent (a b : ascii) (s : str) :
  a <> b -> contains a (replace a b s) = false.
Proof.
  intros N. unfold contains, replace. induction s as [|c s IH]; [reflexivity|].
  simpl. rewrite IH, orb_false_r.
  destruct (Ascii.eqb c a) eqn:E.
  - apply Ascii.eqb_neq. exact N.
  - rewrite Ascii.eqb_sym. exact E.
Qed.

(** Whatever the host separator and whatever the build mode, no member
    name of a built wheel contains a backslash. *)
Theorem wheel_member_names (h : host) (project_dir wheel_dir : path)
    (m : metadata) (cfg : zigx_config) (editable : bool) (temp_path : path)
    (events : list event) (b : built) :
  build_wheel_impl h project_dir wheel_dir m cfg editable temp_path
  = (events, Ok b) ->
  forall member_name content,
    In (member_name, content) (members b) ->
    contains "\"%char member_name = false.
Proof.
  unfold build_wheel_impl. intros E member_name content I.
  destruct (mkdir h false _ _) as [t1|e]; [|discriminate].
  destruct (stage_package h t1 project_dir temp_path m cfg editable)
    as [ev payload].
  injection E as _ E. unfold create_wheel_metadata in E. cbv iota in E.
  repeat (apply bind_ok in E as (? & _ & E)).
  injection E as <-. cbn [members] in I.
  apply in_map_iff in I as ([p c] & Ep & _). injection Ep as <- _.
  apply replace_absent. discriminate.
Qed.

Lemma wheel_member_names_witness :
  contains "\"%char (L "demo.pth") = false.
Proof.
  pose (r := build_wheel_impl demo_host [ L "proj" ] [ L "dist" ]
               demo_metadata demo_config true [ L "tmp"; L "build" ]).
  assert (E : r = (fst r, Ok match snd r with
                             | Ok b => b
                             | Raise _ => mkBuilt [] [] []
                             end))
    by (vm_compute; reflexivity).
  apply (@wheel_member_names demo_host [ L "proj" ] [ L "dist" ] demo_metadata
           demo_config true [ L "tmp"; L "build" ] (fst r) _ E
           (L "demo.pth") (L "/proj")).
  vm_compute. do 4 right. left. reflexivity.
Defined.

Lemma open_archive_file_kept (h : host) (t r : fs) (w : path) (n : str)
    (q : path) (c : bytes) :
  open_archive h t w n = Ok r -> fs_find t q = Some (File c) ->
  fs_find r q = Some (File c).
Proof.
  unfold open_archive. intros O Fq.
  apply bind_ok in O as (r' & M & O).
  destruct (fs_find r' (pdiv w n)) as [[d|]|]; try discriminate;
    injection O as <-; apply (@mkdir_file_kept h true t r' w q c M Fq).
Qed.

(** A file of the staging directory is a member of the archive, under
    its relative path. *)
Lemma member_of (h : host) (t : fs) (T rel : path) (c : bytes) :
  reorders (dir_order h) ->
  fs_find t (T ++ rel) = Some (File c) -> rel <> [] ->
  In (arc_name h rel, c)
    (map (fun '(file_path, content) =>
            (arc_name h (relative_to T file_path), content))
       (files_below h t T)).
Proof.
  intros Hl F N. rewrite <- (relative_to_app T rel) at 1.
  apply (in_map (fun '(file_path, content) =>
                   (arc_name h (relative_to T file_path), content))
           _ (T ++ rel, c)).
  unfold files_below. apply in_flat_map.
  exists (T ++ rel, File c). split; [|left; reflexivity].
  unfold rglob. apply (Permutation_in _ (Permutation_sym (Hl _))).
  apply filter_In. split; [apply fs_find_in, F|].
  destruct rel; [congruence | apply is_below_app].
Qed.

Lemma compile_zig_output (h : host) (t : fs) (src_dir output_dir : path)
    (module_name : str) (release strip_ : bool) (lib_path : path) :
  snd (compile_zig h t src_dir output_dir module_name release strip_)
  = Ok lib_path ->
  lib_path
  = pdiv output_dir ((L "lib" ++ module_name) ++ get_lib_extension h).
Proof.
  unfold compile_zig. destruct (find_zig h) as [zig|e]; [|discriminate].
  destruct (find_main_file h t src_dir module_name) as [main_file|e];
    [|discriminate].
  cbv zeta.
  destruct (negb (returncode _ =? 0)%Z); [discriminate|].
  destruct (negb (fs_exists _ _)); [discriminate|].
  intros E. injection E as <-. reflexivity.
Qed.

(** A build that is not editable and succeeds, for a module, a metadata
    directory and a wheel whose names are file names, has called the
    compiler driver and then the scanner.  Its wheel holds the module generated
    from the scanned functions and the name of the library, the library
    as the compiler left it, an empty type marker, and the metadata
    files. *)
Theorem build_wheel_payload (h : host) (project_dir wheel_dir : path)
    (m : metadata) (cfg : zigx_config) (temp_path : path)
    (events : list event) (b : built) :
  reorders (dir_order h) ->
  forallb file_name [ module_name_of m cfg; dist_info_name_of m;
                      wheel_name_of h m ] = true ->
  build_wheel_impl h project_dir wheel_dir m cfg false temp_path
  = (events, Ok b) ->
  let module_name := module_name_of m cfg in
  let src_dir := joinpath h project_dir (cfg_src_dir cfg) in
  let pkg_dir := pdiv temp_path module_name in
  let dist_info := dist_info_name_of m in
  let lib_filename := (L "lib" ++ module_name) ++ get_lib_extension h in
  events = [ CompileZig src_dir pkg_dir module_name; ScanZigSources src_dir ]
  /\ exists t1 init_content,
       mkdir h false (fs_write (disk h) temp_path Dir) pkg_dir = Ok t1
       /\ snd (compile_zig h t1 src_dir pkg_dir module_name
                 (cfg_release cfg) (cfg_strip cfg))
          = Ok (pdiv pkg_dir lib_filename)
       /\ generate_init_py module_name
            (fst (scan_zig_sources (rglob_zig h src_dir)))
            lib_filename (cfg_gil_release cfg)
          = Ok init_content
       /\ In (arc_name h [ module_name; L "__init__.py" ],
              text_bytes h init_content) (members b)
       /\ In (arc_name h [ module_name; L "py.typed" ], []) (members b)
       /\ (forall content,
             fs_find (fst (compile_zig h t1 src_dir pkg_dir module_name
                             (cfg_release cfg) (cfg_strip cfg)))
               (pdiv pkg_dir lib_filename) = Some (File content) ->
             In (arc_name h [ module_name; lib_filename ], content)
               (members b))
       /\ In (arc_name h [ dist_info; L "METADATA" ],
              text_bytes h (fst (create_wheel_metadata m (get_python_tag h)
                                   (get_abi_tag h) (get_platform_tag h))))
            (members b)
       /\ In (arc_name h [ dist_info; L "top_level.txt" ],
              text_bytes h module_name) (members b).
Proof.
  intros Hl _ E module_name src_dir pkg_dir dist_info lib_filename.
  unfold build_wheel_impl in E. fold module_name pkg_dir in E.
  destruct (mkdir h false (fs_write (disk h) temp_path Dir) pkg_dir)
    as [t1|e] eqn:M1; [|discriminate].
  unfold stage_package in E. fold module_name src_dir pkg_dir in E.
  destruct (compile_zig h t1 src_dir pkg_dir module_name (cfg_release cfg)
              (cfg_strip cfg)) as [t2 compiled] eqn:C.
  destruct compiled as [lib_path|e]; [|discriminate].
  injection E as Eev E. split; [symmetry; exact Eev|].
  assert (Lp : lib_path = pdiv pkg_dir lib_filename).
  { apply (@compile_zig_output h t1 src_dir pkg_dir module_name
             (cfg_release cfg) (cfg_strip cfg)). rewrite C. reflexivity. }
  assert (Ln : path_name lib_path = lib_filename).
  { rewrite Lp. unfold pdiv, path_name. apply last_last. }
  rewrite Ln in E.
  apply bind_ok in E as (s2 & P & E).
  apply bind_ok in P as (init_content & G & P).
  apply bind_ok in P as (s1 & W1 & W2).
  apply bind_ok in E as (s3 & M3 & E).
  unfold create_wheel_metadata in E. cbv iota in E.
  apply bind_ok in E as (s4 & W4 & E).
  apply bind_ok in E as (s5 & W5 & E).
  apply bind_ok in E as (s6 & W6 & E).
  apply bind_ok in E as (s7 & W7 & E).
  apply bind_ok in E as (s8 & O8 & E).
  injection E as <-. cbn [members].
  apply write_text_ok in W1, W2, W4, W5, W6, W7.
  exists t1, init_content. rewrite C. cbn [fst snd].
  split; [reflexivity|]. split; [rewrite Lp; reflexivity|].
  split; [exact G|].
  assert (K : forall rel c,
            fs_find s3 (temp_path ++ rel) = Some (File c) -> rel <> [] ->
            temp_path ++ rel <> pdiv (pdiv temp_path dist_info) (L "METADATA") ->
            temp_path ++ rel <> pdiv (pdiv temp_path dist_info) (L "WHEEL") ->
            temp_path ++ rel
              <> pdiv (pdiv temp_path dist_info) (L "top_level.txt") ->
            temp_path ++ rel <> pdiv (pdiv temp_path dist_info) (L "RECORD") ->
            In (arc_name h rel, c)
              (map (fun '(file_path, content) =>
                      (arc_name h (relative_to temp_path file_path), content))
                 (files_below h s8 temp_path))).
  { intros rel c F N N4 N5 N6 N7. apply member_of; [exact Hl| |exact N].
    apply (@open_archive_file_kept h s7 s8 wheel_dir (wheel_name_of h m) _ c O8).
    rewrite W7, fs_find_write_other by exact N7.
    rewrite W6, fs_find_write_other by exact N6.
    rewrite W5, fs_find_write_other by exact N5.
    rewrite W4, fs_find_write_other by exact N4.
    exact F. }
  assert (K2 : forall q c, fs_find s2 q = Some (File c) ->
                 fs_find s3 q = Some (File c)).
  { intros q c F. apply (@mkdir_file_kept h false s2 s3 _ q c M3 F). }
  unfold pkg_dir, pdiv in *. rewrite <- !app_assoc in *. cbn [app] in *.
  repeat split.
  - apply K; try discriminate; try path_neq.
    apply K2. rewrite W2, fs_find_write_other by path_neq.
    rewrite W1. apply fs_find_write_same.
  - apply K; try discriminate; try path_neq.
    apply K2. rewrite W2. apply fs_find_write_same.
  - intros content Fl. apply K; try discriminate; try path_neq.
    apply K2. rewrite W2, fs_find_write_other by path_neq.
    rewrite W1, fs_find_write_other by path_neq. exact Fl.
  - apply member_of; [exact Hl| |discriminate].
    apply (@open_archive_file_kept h s7 s8 wheel_dir (wheel_name_of h m) _ _ O8).
    rewrite W7, fs_find_write_other by path_neq.
    rewrite W6, fs_find_write_other by path_neq.
    rewrite W5, fs_find_write_other by path_neq.
    rewrite W4. apply fs_find_write_same.
  - apply member_of; [exact Hl| |discriminate].
    apply (@open_archive_file_kept h s7 s8 wheel_dir (wheel_name_of h m) _ _ O8).
    rewrite W7, fs_find_write_other by path_neq.
    rewrite W6. apply fs_find_write_same.
Qed.

Lemma build_wheel_payload_witness :
  exists b,
    build_wheel_impl demo_host [ L "proj" ] [ L "dist" ] demo_metadata
      demo_config false [ L "tmp"; L "build" ]
    = ([ CompileZig [ L "proj"; L "src" ] [ L "tmp"; L "build"; L "demo" ]
           (L "demo");
         ScanZigSources [ L "proj"; L "src" ] ], Ok b)
    /\ In (L "demo/py.typed", []) (members b)
    /\ In (L "demo/libdemo.so", [ "127"%char; "E"%char ]) (members b)
    /\ In (L "my-ext-1.2.0.dist-info/top_level.txt", L "demo") (members b).
Proof.
  pose (r := build_wheel_impl demo_host [ L "proj" ] [ L "dist" ]
               demo_metadata demo_config false [ L "tmp"; L "build" ]).
  pose (b0 := match snd r with
              | Ok b => b
              | Raise _ => mkBuilt [] [] []
              end).
  assert (E : r = (fst r, Ok b0)) by (vm_compute; reflexivity).
  destruct (@build_wheel_payload demo_host [ L "proj" ] [ L "dist" ]
              demo_metadata demo_config [ L "tmp"; L "build" ] (fst r) b0
              (fun entries => Permutation_sym (Permutation_rev entries))
              eq_refl E)
    as (Ev & t1 & init_content & M & _ & _ & _ & Ty & Lib & _ & Top).
  exists b0. split; [|split; [|split]].
  - vm_compute. reflexivity.
  - exact Ty.
  - apply Lib. vm_compute in M. injection M as <-. vm_compute. reflexivity.
  - exact Top.
Defined.

(** ** The metadata directory *)

Lemma mkdir_step_find (t : fs) (r q : path) :
  fs_find (mkdir_step t r) q
  = match fs_find t q with
    | Some n => Some n
    | None => if list_eq_dec (list_eq_dec ascii_dec) q r then Some Dir
              else None
    end.
Proof.
  unfold mkdir_step, fs_exists.
  destruct (list_eq_dec (list_eq_dec ascii_dec) q r) as [->|N].
  - destruct (fs_find t r) eqn:F; [rewrite F; reflexivity|].
    apply fs_find_write_same.
  - destruct (fs_find t r) eqn:F.
    + destruct (fs_find t q); reflexivity.
    + rewrite fs_find_write_other by exact N.
      destruct (fs_find t q); reflexivity.
Qed.

(** The directories made by [mkdir]: the missing ones among those
    asked for, and nothing else changes. *)
Lemma mkdir_steps_spec (l : list path) (t : fs) (q : path) :
  fs_find (fold_left mkdir_step l t) q
  = match fs_find t q with
    | Some n => Some n
    | None => if in_dec (list_eq_dec (list_eq_dec ascii_dec)) q l
              then Some Dir else None
    end.
Proof.
  revert t; induction l as [|r l IH]; intros t.
  - cbn [fold_left]. destruct (fs_find t q); reflexivity.
  - cbn [fold_left]. rewrite IH, mkdir_step_find.
    destruct (fs_find t q); [reflexivity|].
    destruct (in_dec (list_eq_dec (list_eq_dec ascii_dec)) q (r :: l))
      as [I|N].
    + destruct (list_eq_dec (list_eq_dec ascii_dec) q r) as [E|E];
        [reflexivity|].
      destruct (in_dec (list_eq_dec (list_eq_dec ascii_dec)) q l) as [|N'];
        [reflexivity|].
      destruct I as [<- | I]; [congruence | destruct (N' I)].
    + destruct (list_eq_dec (list_eq_dec ascii_dec) q r) as [E|E].
      * exfalso. apply N. left. symmetry; exact E.
      * destruct (in_dec (list_eq_dec (list_eq_dec ascii_dec)) q l) as [I'|];
          [|reflexivity].
        exfalso. apply N. right; exact I'.
Qed.

Lemma in_inits_self (p : path) : p <> [] -> In p (inits p).
Proof.
  intros N. rewrite inits_ancestors. apply in_or_app. right.
  destruct p; [congruence | left; reflexivity].
Qed.

(** Preparing the metadata directory, when it succeeds and
    [name-version.dist-info] is a file name, returns that name.  The directory is there afterwards, with
    the METADATA and WHEEL texts that a wheel build writes; when it was
    not there, so are the directories above it.  Nothing that was there
    changes, the two files apart, and nothing is made but the two
    files, the directory and the directories above it. *)
Theorem prepare_metadata_writes (h : host) (t : fs) (meta_dir : path)
    (m : metadata) (returned : str) (after : fs) :
  file_name (dist_info_name_of m) = true ->
  prepare_metadata_for_build_wheel h t meta_dir m = Ok (returned, after) ->
  let dist_info := pdiv meta_dir (dist_info_name_of m) in
  let texts := create_wheel_metadata m (get_python_tag h) (get_abi_tag h)
                 (get_platform_tag h) in
  returned = dist_info_name_of m
  /\ fs_find after (pdiv dist_info (L "METADATA"))
     = Some (File (text_bytes h (fst texts)))
  /\ fs_find after (pdiv dist_info (L "WHEEL"))
     = Some (File (text_bytes h (snd texts)))
  /\ is_dir after dist_info = true
  /\ (fs_find t dist_info = None ->
      forall q, In q (ancestors dist_info) -> is_dir after q = true)
  /\ (forall q n,
        fs_find t q = Some n ->
        q <> pdiv dist_info (L "METADATA") -> q <> pdiv dist_info (L "WHEEL") ->
        fs_find after q = Some n)
  /\ (forall q,
        fs_find t q = None -> ~ In q (inits dist_info) ->
        q <> pdiv dist_info (L "METADATA") -> q <> pdiv dist_info (L "WHEEL") ->
        fs_find after q = None).
Proof.
  intros _ E dist_info texts. unfold prepare_metadata_for_build_wheel in E.
  fold dist_info in E.
  apply bind_ok in E as (t1 & M & E).
  unfold texts, create_wheel_metadata in *. cbv iota in E. cbn [fst snd].
  apply bind_ok in E as (t2 & W2 & E). apply bind_ok in E as (t3 & W3 & E).
  injection E as <- <-.
  apply write_text_ok in W2, W3.
  assert (Nw : pdiv dist_info (L "METADATA") <> pdiv dist_info (L "WHEEL"))
    by (unfold pdiv; path_neq).
  assert (Nm : dist_info <> pdiv dist_info (L "METADATA"))
    by (unfold pdiv; path_neq).
  assert (Nh : dist_info <> pdiv dist_info (L "WHEEL"))
    by (unfold pdiv; path_neq).
  assert (K : forall q, q <> pdiv dist_info (L "METADATA") ->
                q <> pdiv dist_info (L "WHEEL") ->
                fs_find t3 q = fs_find t1 q).
  { intros q N1 N2. rewrite W3, fs_find_write_other by exact N2.
    rewrite W2. apply fs_find_write_other, N1. }
  assert (S : forall q,
            fs_find t1 q
            = match fs_find t q with
              | Some n => Some n
              | None =>
                  match fs_find t dist_info with
                  | None =>
                      if in_dec (list_eq_dec (list_eq_dec ascii_dec)) q
                           (inits dist_info)
                      then Some Dir else None
                  | Some _ => None
                  end
              end).
  { intros q. unfold mkdir, fs_mkdir in M.
    destruct (existsb (is_file t) (ancestors dist_info)); [discriminate|].
    destruct (fs_find t dist_info) as [[c|]|]; try discriminate.
    - injection M as <-. destruct (fs_find t q); reflexivity.
    - injection M as <-. apply mkdir_steps_spec. }
  assert (A : forall q, In q (ancestors dist_info) -> is_file t q = false).
  { intros q I. unfold mkdir, fs_mkdir in M.
    destruct (existsb (is_file t) (ancestors dist_info)) eqn:X;
      [discriminate|].
    destruct (is_file t q) eqn:Fq; [|reflexivity].
    rewrite <- X. symmetry. apply existsb_exists. exists q. auto. }
  split; [reflexivity|]. split; [|split; [|split; [|split; [|split]]]].
  - rewrite W3, fs_find_write_other by exact Nw.
    rewrite W2. apply fs_find_write_same.
  - rewrite W3. apply fs_find_write_same.
  - unfold is_dir. rewrite K, S by assumption.
    unfold mkdir, fs_mkdir in M.
    destruct (existsb (is_file t) (ancestors dist_info)); [discriminate|].
    destruct (fs_find t dist_info) as [[c|]|]; try discriminate;
      [reflexivity|].
    destruct (in_dec (list_eq_dec (list_eq_dec ascii_dec)) dist_info
                (inits dist_info)) as [|N]; [reflexivity|].
    exfalso. apply N, in_inits_self. unfold dist_info, pdiv.
    destruct meta_dir; discriminate.
  - intros Nd q I. unfold is_dir.
    assert (N1 : q <> pdiv dist_info (L "METADATA")).
    { intros ->. apply in_ancestors, inits_length in I.
      unfold pdiv in I. rewrite length_app in I. simpl in I. lia. }
    assert (N2 : q <> pdiv dist_info (L "WHEEL")).
    { intros ->. apply in_ancestors, inits_length in I.
      unfold pdiv in I. rewrite length_app in I. simpl in I. lia. }
    rewrite K, S, Nd by assumption.
    specialize (A q I). unfold is_file in A.
    destruct (fs_find t q) as [[c|]|]; try discriminate; [reflexivity|].
    destruct (in_dec (list_eq_dec (list_eq_dec ascii_dec)) q
                (inits dist_info)) as [|N]; [reflexivity|].
    destruct (N (in_ancestors _ _ I)).
  - intros q n Fq N1 N2. rewrite K, S, Fq by assumption. reflexivity.
  - intros q Fq Ni N1 N2. rewrite K, S, Fq by assumption.
    destruct (fs_find t dist_info); [reflexivity|].
    destruct (in_dec (list_eq_dec (list_eq_dec ascii_dec)) q
                (inits dist_info)) as [I|]; [destruct (Ni I)|reflexivity].
Qed.

Lemma prepare_metadata_writes_witness :
  exists after,
    prepare_metadata_for_build_wheel win_host (disk win_host)
      [ L "tmp"; L "meta"; L "out" ] demo_metadata
    = Ok (L "my-ext-1.2.0.dist-info", after)
    /\ fs_find after [ L "tmp"; L "meta"; L "out";
                       L "my-ext-1.2.0.dist-info"; L "WHEEL" ]
       = Some (File (L "Wheel-Version: 1.0" ++ [ "013"%char; "010"%char ]
                     ++ L "Generator: zigx" ++ [ "013"%char; "010"%char ]
                     ++ L "Root-Is-Purelib: false" ++ [ "013"%char; "010"%char ]
                     ++ L "Tag: cp312-cp312-win_amd64"))
    /\ is_dir after [ L "tmp"; L "meta" ] = true
    /\ fs_find after [ L "proj"; L "pyproject.toml" ]
       = Some (File (L "[project]")).
Proof.
  pose (r := prepare_metadata_for_build_wheel win_host (disk win_host)
               [ L "tmp"; L "meta"; L "out" ] demo_metadata).
  assert (E : r = Ok (L "my-ext-1.2.0.dist-info",
                      match r with Ok (_, after) => after | Raise _ => [] end))
    by (vm_compute; reflexivity).
  destruct (@prepare_metadata_writes win_host (disk win_host)
              [ L "tmp"; L "meta"; L "out" ] demo_metadata _ _ eq_refl E)
    as (_ & _ & W & _ & P & Kept & _).
  eexists. split; [exact E|]. split; [|split].
  - exact W.
  - apply P; [reflexivity|]. right; left; reflexivity.
  - apply Kept; [reflexivity | discriminate | discriminate].
Defined.

(** ** Records of an arbitrary source *)

Lemma lstrip_by_split (p : ascii -> bool) (s : str) :
  exists a, s = a ++ lstrip_by p s /\ forallb p a = true
            /\ (lstrip_by p s = [] \/
                exists c r, lstrip_by p s = c :: r /\ p c = false).
Proof.
  induction s as [|c s IH].
  - exists []. auto.
  - simpl. destruct (p c) eqn:P.
    + destruct IH as (a & E & F & K). exists (c :: a). simpl.
      rewrite P, F, <- E. auto.
    + exists []. split; [reflexivity|]. split; [reflexivity|]. right. eauto.
Qed.

Lemma strip_split (s : str) :
  exists a b, s = a ++ strip s ++ b
              /\ (strip s = [] \/ trimmed (strip s) = true).
Proof.
  unfold strip, lstrip, rstrip.
  destruct (lstrip_by_split is_space s) as (a & Ea & _ & Ka).
  destruct (rstrip_by_split is_space (lstrip_by is_space s)) as (b & Eb & _ & Kb).
  exists a, b. split; [rewrite <- Eb; exact Ea|].
  destruct Ka as [Z|(c & r & Ec & Pc)].
  - left. rewrite Z. reflexivity.
  - right. rewrite Ec in *.
    change (c :: r) with (([] ++ [c]) ++ r) in Kb |- *.
    rewrite rstrip_by_keep in Kb |- * by exact Pc.
    destruct Kb as [Z|(x & c' & Ex & Pc')]; [discriminate|].
    apply (@trimmed_intro _ c (rstrip_by is_space r) x c'); auto.
Qed.

Lemma strip_idempotent (s : str) : strip (strip s) = strip s.
Proof.
  destruct (strip_split s) as (_ & _ & _ & [Z|T]).
  - rewrite Z. reflexivity.
  - apply strip_trimmed, T.
Qed.

Lemma strip_keeps (P : ascii -> bool) (s : str) :
  forallb P s = true -> forallb P (strip s) = true.
Proof.
  destruct (strip_split s) as (a & b & E & _). intros F.
  rewrite E, !forallb_app in F.
  apply andb_true_iff in F as [_ F]. apply andb_true_iff in F as [F _].
  exact F.
Qed.

Lemma split_pieces (P : ascii -> bool) (sep : ascii) (s piece : str) :
  In piece (split sep s) ->
  plain [ sep ] piece = true /\ (forallb P s = true -> forallb P piece = true).
Proof.
  revert piece; induction s as [|c s IH]; intros piece I.
  - destruct I as [<-|[]]. auto.
  - simpl in I. destruct (Ascii.eqb c sep) eqn:E.
    + destruct I as [<-|I]; [auto|].
      destruct (IH piece I) as [A B]. split; [exact A|].
      simpl. intros F. apply andb_true_iff in F as [_ F]. auto.
    + destruct (split sep s) as [|h r] eqn:S.
      * destruct I as [<-|[]]. split.
        -- rewrite plain_one. simpl. rewrite E. reflexivity.
        -- simpl. intros F. apply andb_true_iff in F as [-> _]. reflexivity.
      * destruct I as [<-|I].
        -- destruct (IH h (or_introl eq_refl)) as [A B]. split.
           ++ rewrite plain_one in *. simpl. rewrite E, A. reflexivity.
           ++ simpl. intros F. apply andb_true_iff in F as [-> F]. auto.
        -- destruct (IH piece (or_intror I)) as [A B]. split; [exact A|].
           simpl. intros F. apply andb_true_iff in F as [_ F]. auto.
Qed.

Lemma split1_parts (P : ascii -> bool) (sep : ascii) (s : str) :
  plain [ sep ] (fst (split1 sep s)) = true
  /\ (forallb P s = true ->
      forallb P (fst (split1 sep s)) = true
      /\ forallb P (snd (split1 sep s)) = true).
Proof.
  induction s as [|c s IH]; [auto|].
  simpl. destruct (Ascii.eqb c sep) eqn:E.
  - simpl. split; [reflexivity|]. intros F.
    apply andb_true_iff in F as [_ F]. auto.
  - destruct (split1 sep s) as [a b]. simpl in *. destruct IH as [A B].
    split.
    + rewrite plain_one in *. simpl. rewrite E, A. reflexivity.
    + intros F. apply andb_true_iff in F as [-> F]. destruct (B F). auto.
Qed.

Lemma plain_cons (c : ascii) (f : list ascii) (s : str) :
  plain [ c ] s = true -> plain f s = true -> plain (c :: f) s = true.
Proof.
  unfold plain. rewrite !forallb_forall. intros A B x I.
  specialize (A x I). specialize (B x I). cbn [existsb] in *.
  rewrite orb_false_r in A. apply negb_true_iff in A, B.
  rewrite A, B. reflexivity.
Qed.

(** What one turn of the parameter loop can add. *)
Lemma parse_param_pair (param n t : str) :
  In (n, t) (parse_param param) ->
  strip n = n /\ strip t = t /\ plain [ ":"%char ] n = true
  /\ forall P, forallb P param = true ->
       forallb P n = true /\ forallb P t = true.
Proof.
  unfold parse_param.
  destruct (str_eqb (strip param) [] || str_eqb (strip param) (L "..."));
    [intros []|].
  destruct (startswith (strip param) (L "comptime")); [intros []|].
  destruct (contains ":"%char (strip param)); [|intros []].
  destruct (split1_parts (fun _ => true) ":"%char (strip param)) as [Pa _].
  pose proof (fun P => proj2 (split1_parts P ":"%char (strip param))) as Pb.
  destruct (split1 ":"%char (strip param)) as [a b]. cbn [fst snd] in *.
  intros [E|[]]. injection E as <- <-.
  split; [apply strip_idempotent|]. split; [apply strip_idempotent|].
  split.
  - rewrite plain_one in *. apply strip_keeps, Pa.
  - intros P F. destruct (Pb P (strip_keeps P _ F)) as [Fa Fb].
    split; apply strip_keeps; assumption.
Qed.

Lemma finditer_from_in (r : regex) (fuel : nat) (s : str) (m : mstate) :
  In m (finditer_from r fuel s) -> exists s', matches r (MState s' []) m.
Proof.
  revert s; induction fuel as [|f IH]; intros s I; [destruct I|].
  rewrite finditer_from_S in I. cbv zeta in I.
  assert (Sk : In m match s with [] => [] | _ :: t => finditer_from r f t end ->
               exists s', matches r (MState s' []) m).
  { destruct s as [|c t]; [intros []|]. apply IH. }
  destruct (ms r (MState s [])) as [|m0 l] eqn:E; [auto|].
  destruct I as [<-|I].
  - exists s. apply (@ms_head r _ _ _ E).
  - destruct (length (rest m0) <? length s); [apply IH with (rest m0), I|auto].
Qed.

(** Whatever the source is, every record of the scanner has a non-empty
    name made of word characters, a trimmed return type, and parameters
    whose names and types are trimmed and hold no comma and no closing
    parenthesis, the names holding no colon either. *)
Theorem scanned_records (zig_source : str) (func : ZigFunction) :
  In func (parse_zig_exports zig_source) ->
  name func <> [] /\ forallb is_word (name func) = true
  /\ strip (return_type func) = return_type func
  /\ release_gil func = true
  /\ forall n t, In (n, t) (params func) ->
       strip n = n /\ strip t = t
       /\ plain [ ":"%char; ","%char; ")"%char ] n = true
       /\ plain [ ","%char; ")"%char ] t = true.
Proof.
  intros I. unfold parse_zig_exports in I.
  apply in_map_iff in I as (m & <- & I).
  apply finditer_from_in in I as (s' & H).
  apply export_pattern_inv in H
    as (texts & wws & wpub & ws1 & ws2 & wname & ws3 & wparams & ws4 & wret
        & ws5 & s_end & _ & -> & _ & _ & _ & _ & _ & (Fn & Nn) & _ & Fp & _).
  unfold function_of_match. cbn [caps group gname_eqb name return_type params
                                   release_gil].
  split; [exact Nn|]. split; [exact Fn|].
  split; [apply strip_idempotent|]. split; [reflexivity|].
  intros n t Ip. unfold parse_params in Ip.
  destruct (strip wparams) as [|c0 r0] eqn:Es; [destruct Ip|].
  rewrite <- Es in Ip. clear c0 r0 Es.
  apply in_flat_map in Ip as (piece & Isp & Ip).
  destruct (split_pieces (fun x => negb (Ascii.eqb x ")"%char)) ","%char
              (strip wparams) piece Isp) as [Pc Pk].
  rewrite plain_one in Fp. specialize (Pk (strip_keeps _ _ Fp)).
  rewrite plain_one in Pc.
  destruct (parse_param_pair piece n t Ip) as (Sn & St & Pn & K).
  destruct (K _ Pc) as [Cn Ct]. destruct (K _ Pk) as [Kn Kt].
  split; [exact Sn|]. split; [exact St|].
  rewrite <- plain_one in Cn, Ct, Kn, Kt.
  split.
  - apply plain_cons; [exact Pn|]. apply plain_cons; [exact Cn | exact Kn].
  - apply plain_cons; [exact Ct | exact Kt].
Qed.

Lemma scanned_records_witness :
  let func := hd add_function (parse_zig_exports demo_source) in
  name func <> [] /\ forallb is_word (name func) = true.
Proof.
  intros func.
  destruct (@scanned_records demo_source func) as (N & W & _).
  - left. reflexivity.
  - split; assumption.
Defined.
